(** * multi-http-provider: a shallow embedding of the poll / transform /
      merge / emit pipeline, and its properties.

    The repository holds two variants of one provider:
    - [provider.go]       : entry-point filtering  (module [Filtering]);
    - [unnamed/part_000]  : middleware namespace rewriting (module [Rewriting]).
    [mergeConfig], [ConfigMarshaler.MarshalJSON], [Provide] and [Stop] are
    textually the same in both files. *)

From Stdlib Require Import ZArith.
From stdpp Require Import gmap strings list fin_maps sorting.

Open Scope Z_scope.

(* ===================================================================== *)
(** * Go runtime: panics, errors, maps ranged over in some order          *)
(* ===================================================================== *)

(** A Go computation either returns or panics. *)
Inductive outcome (A : Type) : Type :=
  | Ok (a : A)
  | Panic (msg : string).
Arguments Ok {A} a.
Arguments Panic {A} msg.

Definition obind {A B} (x : outcome A) (k : A → outcome B) : outcome B :=
  match x with
  | Ok a => k a
  | Panic msg => Panic msg
  end.

Notation "x ←! c ; k" := (obind c (fun x => k))
  (at level 20, c at level 100, k at level 200, right associativity,
   format "x  ←!  c ;  '/' k").

(** Go's [error]: [None] is [nil], [Some msg] an error carrying [msg]. *)
Abbreviation error := (option string).

Definition nil_dereference : string :=
  "runtime error: invalid memory address or nil pointer dereference".

(** What [time.NewTicker(d)] panics with when [d <= 0]. *)
Definition non_positive_interval : string :=
  "non-positive interval for NewTicker".

(** [for k, v := range m] visits every entry of [m] once, in an order the
    language leaves open.  A visiting order of [m] is any arrangement of its
    entries. *)
Definition range_order {V} (m : gmap string V) (visit : list (string * V)) : Prop :=
  visit ≡ₚ map_to_list m.

(* ===================================================================== *)
(** * The routing document ([dynamic.Configuration])                      *)
(* ===================================================================== *)

(** [dynamic.Router]: the three fields the package reads or writes, and
    [Rule] standing for the fields it only carries along. *)
Record Router := mkRouter {
  EntryPoints : list string;
  Middlewares : list string;
  Service : string;
  Rule : string;
}.

Definition set_EntryPoints (v : Router) (eps : list string) : Router :=
  {| EntryPoints := eps; Middlewares := Middlewares v;
     Service := Service v; Rule := Rule v |}.

Definition set_Middlewares (v : Router) (ms : list string) : Router :=
  {| EntryPoints := EntryPoints v; Middlewares := ms;
     Service := Service v; Rule := Rule v |}.

Section Document.
(** The bodies of [dynamic.Service] and [dynamic.Middleware] are never
    inspected: the package only moves them between maps. *)
Context {Svc Mw : Type}.

(** [dynamic.HTTPConfiguration]: three maps from name to pointer.  A nil
    Go map reads as the empty map.  [R] is what a router name is bound to:
    [option Router] for the Go map as it is, a [*dynamic.Router] that is
    [None] when nil; [Router] for a fragment, where every router pointer is
    known to refer to a definition. *)
Record HTTPMaps {R : Type} := mkHTTP {
  Routers : gmap string R;
  Services : gmap string Svc;
  HTTPMiddlewares : gmap string Mw;
}.
Global Arguments HTTPMaps : clear implicits.

(** A fragment: the three named collections of route, service and
    middleware definitions. *)
Local Abbreviation HTTPConfiguration := (HTTPMaps Router).

(** [dynamic.Configuration]: [HTTP] is a pointer, nil when the decoded
    document has no [http] member; a router pointer is nil when the
    document binds the router's name to [null]. *)
Record Configuration := mkConfiguration {
  HTTP : option (HTTPMaps (option Router));
}.

Definition emptyHTTP {R} : HTTPMaps R :=
  {| Routers := ∅; Services := ∅; HTTPMiddlewares := ∅ |}.

(** The Go maps of a fragment: every router behind a pointer. *)
Definition pointers (h : HTTPConfiguration) : HTTPMaps (option Router) :=
  {| Routers := Some <$> Routers h;
     Services := Services h;
     HTTPMiddlewares := HTTPMiddlewares h |}.

(** A fragment as a decoded document. *)
Definition document (h : HTTPConfiguration) : Configuration :=
  {| HTTP := Some (pointers h) |}.

(** Every router pointer dereferenced: the fragment, or nothing when one
    of the pointers is nil. *)
Definition fragment_of (maps : HTTPMaps (option Router)) : option HTTPConfiguration :=
  if decide (map_Forall (λ _ v, is_Some v) (Routers maps))
  then Some {| Routers := omap id (Routers maps);
               Services := Services maps;
               HTTPMiddlewares := HTTPMiddlewares maps |}
  else None.

(* ------------------------------------------------------------------- *)
(** ** [mergeConfig] (provider.go 190-216, part_000 153-179)            *)
(* ------------------------------------------------------------------- *)

(** [if _, ok := dst[name]; !ok { dst[name] = m }] *)
Definition put_absent {V} (dst : gmap string V) (entry : string * V) : gmap string V :=
  match dst !! entry.1 with
  | Some _ => dst
  | None => <[entry.1 := entry.2]> dst
  end.

(** One inner [for name, m := range src] loop, run in the order [visit]. *)
Definition range_put {V} (dst : gmap string V) (visit : list (string * V)) : gmap string V :=
  foldl put_absent dst visit.

(** The body of [for _, c := range configs] once [c.HTTP] is dereferenced:
    middlewares, then services, then routers.  The pointers are copied,
    never dereferenced, so the body is the same whatever [R] is. *)
Definition merge_into {R} (newConfig c : HTTPMaps R) : HTTPMaps R :=
  {| Routers := range_put (Routers newConfig) (map_to_list (Routers c));
     Services := range_put (Services newConfig) (map_to_list (Services c));
     HTTPMiddlewares :=
       range_put (HTTPMiddlewares newConfig) (map_to_list (HTTPMiddlewares c)) |}.

(** The outer loop over the fragments in the order they are visited;
    [c.HTTP.Middlewares] panics on a document whose [HTTP] is nil. *)
Fixpoint merge_loop (newConfig : HTTPMaps (option Router))
    (configs : list Configuration) : outcome (HTTPMaps (option Router)) :=
  match configs with
  | [] => Ok newConfig
  | c :: rest =>
      match HTTP c with
      | None => Panic nil_dereference
      | Some h => merge_loop (merge_into newConfig h) rest
      end
  end.

(** [configs] is the sequence of values of the Go map in visiting order. *)
Definition mergeConfig (configs : list Configuration) : outcome Configuration :=
  merged ←! merge_loop emptyHTTP configs; Ok {| HTTP := Some merged |}.

(** First fragment of a sequence that defines [name] in the collection
    selected by [proj]. *)
Fixpoint earliest {V} (proj : HTTPConfiguration → gmap string V)
    (frags : list HTTPConfiguration) (name : string) : option V :=
  match frags with
  | [] => None
  | h :: rest =>
      match proj h !! name with
      | Some v => Some v
      | None => earliest proj rest name
      end
  end.

(** [v] is what the first fragment of the sequence that defines [name]
    gives for it: fragment number [i] maps [name] to [v] and no fragment
    before it defines [name]. *)
Definition first_definition {V} (proj : HTTPConfiguration → gmap string V)
    (frags : list HTTPConfiguration) (name : string) (v : V) : Prop :=
  ∃ (i : nat) h, frags !! i = Some h ∧ proj h !! name = Some v ∧
    ∀ (j : nat) h', (j < i)%nat → frags !! j = Some h' → proj h' !! name = None.

(** Every reference of every router names an entry of the same fragment. *)
Definition resolvable (h : HTTPConfiguration) : Prop :=
  map_Forall (λ _ r,
    is_Some (Services h !! Service r) ∧
    Forall (λ m, is_Some (HTTPMiddlewares h !! m)) (Middlewares r)) (Routers h).

#[global] Instance resolvable_dec h : Decision (resolvable h).
Proof. unfold resolvable. apply _. Defined.

(* ------------------------------------------------------------------- *)
(** ** [ConfigMarshaler] (provider.go 218-227, part_000 181-190)        *)
(* ------------------------------------------------------------------- *)

(** [config] is a pointer: [None] is nil. *)
Record ConfigMarshaler := mkConfigMarshaler {
  config : option Configuration;
}.

Section Marshal.
(** [json.Marshal] on a configuration: the bytes and the error. *)
Variable json_Marshal : Configuration → string * error.

Definition MarshalJSON (c : ConfigMarshaler) : string * error :=
  match config c with
  | Some cfg => json_Marshal cfg
  | None => ("", Some "unable to serialize configuration")
  end.
End Marshal.

End Document.

Arguments HTTPMaps : clear implicits.
Arguments Configuration : clear implicits.

(** The type of fragments. *)
Abbreviation HTTPConfiguration Svc Mw := (HTTPMaps Svc Mw Router).
Arguments ConfigMarshaler : clear implicits.

(* ===================================================================== *)
(** * The world around the provider                                       *)
(* ===================================================================== *)

(** [io.ReadAll(resp.Body)] *)
Inductive read_result :=
  | ReadErr (err : string)
  | ReadAll (body : string).

(** [http.Get(url)]: an error, or a response with its status code and a
    body still to be read. *)
Inductive get_result :=
  | GetErr (err : string)
  | Response (StatusCode : Z) (Body : read_result).

(** The unexported [endpoint] struct. *)
Record endpoint := mkEndpoint {
  endpoint_address : string;
  headers : gmap string string;
}.

(** The exported [Endpoint] struct of the plugin configuration. *)
Record Endpoint := mkEndpointConfig {
  Endpoint_address : string;
  Headers : gmap string string;
}.

Definition config_url (e : endpoint) : string :=
  "http://" +:+ endpoint_address e +:+ ":5000/traefik/config".

(** Contexts made by [context.WithCancel], by number; the flag tells whether
    the context is done.  A cancel function is the number of its context, and
    a nil [func()] is [None]. *)
Record runtime := mkRuntime {
  contexts : list bool;
  drivers : list nat;
}.

Definition WithCancel (rt : runtime) : nat * runtime :=
  (length (contexts rt),
   {| contexts := contexts rt ++ [false]; drivers := drivers rt |}).

(** [go func() { ... p.loadConfiguration(ctx, cfgChan) }()] *)
Definition spawn (ctx : nat) (rt : runtime) : runtime :=
  {| contexts := contexts rt; drivers := drivers rt ++ [ctx] |}.

(** Calling a value of type [func()]: a nil function panics; a cancel
    function marks its context done, and does nothing when it already is. *)
Definition call (cancel : option nat) (rt : runtime) : outcome runtime :=
  match cancel with
  | None => Panic nil_dereference
  | Some ctx => Ok {| contexts := <[ctx := true]> (contexts rt); drivers := drivers rt |}
  end.

(** What one pass through the [select] of [loadConfiguration] receives: a
    tick, with the state of the network and the orders in which the Go maps
    happen to be ranged over during that pass, or the end of the context. *)
Record pass {Svc Mw : Type} := mkPass {
  http_Get : string → get_result;
  endpoints_visit : gmap string endpoint → list (string * endpoint);
  configs_visit : gmap string (Configuration Svc Mw) → list (string * Configuration Svc Mw);
}.
Arguments pass : clear implicits.

Inductive event {Svc Mw : Type} :=
  | TickerC (w : pass Svc Mw)
  | CtxDone.
Arguments event : clear implicits.

(** [dynamic.JSONPayload{Configuration: config}] *)
Record JSONPayload {Svc Mw : Type} := mkJSONPayload {
  PayloadConfiguration : option (Configuration Svc Mw);
}.
Arguments JSONPayload : clear implicits.

(** How far [loadConfiguration] got on a finite run of events. *)
Inductive exit :=
  | Returned
  | Panicked (msg : string)
  | Selecting.

Section Cycle.
Context {Svc Mw : Type}.
(** [json.Unmarshal(body, &config)]: [None] is a decoding error. *)
Variable json_Unmarshal : string → option (Configuration Svc Mw).
(** The policy applied to a decoded document, where it can panic. *)
Variable transform : Configuration Svc Mw → outcome (Configuration Svc Mw).

(** Request, read, decode: the three [continue] exits of the loop body. *)
Definition fetch (get : string → get_result) (e : endpoint)
  : option (Configuration Svc Mw) :=
  match get (config_url e) with
  | GetErr _ => None
  | Response _ body =>
      match body with
      | ReadErr _ => None
      | ReadAll bytes => json_Unmarshal bytes
      end
  end.

(** [for node, e := range p.endpoints { ... configs[node] = &config }] *)
Fixpoint poll (get : string → get_result) (visit : list (string * endpoint))
    (configs : gmap string (Configuration Svc Mw))
  : outcome (gmap string (Configuration Svc Mw)) :=
  match visit with
  | [] => Ok configs
  | (node, e) :: rest =>
      match fetch get e with
      | None => poll get rest configs
      | Some decoded =>
          c ←! transform decoded;
          poll get rest (<[node := c]> configs)
      end
  end.

(** The [case <-ticker.C] branch: the payload sent on [cfgChan]. *)
Definition tick (endpoints : gmap string endpoint) (w : pass Svc Mw)
  : outcome (JSONPayload Svc Mw) :=
  configs ←! poll (http_Get w) (endpoints_visit w endpoints) ∅;
  merged ←! mergeConfig (configs_visit w configs).*2;
  Ok {| PayloadConfiguration := Some merged |}.

(** The [for { select { ... } }] loop on a finite run of events; [sent]
    collects what went to [cfgChan], oldest first. *)
Fixpoint run (endpoints : gmap string endpoint) (events : list (event Svc Mw))
    (sent : list (JSONPayload Svc Mw)) : list (JSONPayload Svc Mw) * exit :=
  match events with
  | [] => (sent, Selecting)
  | CtxDone :: _ => (sent, Returned)
  | TickerC w :: rest =>
      match tick endpoints w with
      | Ok payload => run endpoints rest (sent ++ [payload])
      | Panic msg => (sent, Panicked msg)
      end
  end.

(** What [configs] holds when the loop over the endpoints ends without a
    panic: under each node whose fetch succeeded, its transformed document. *)
Definition collected (get : string → get_result)
    (endpoints : gmap string endpoint) : gmap string (Configuration Svc Mw) :=
  omap (λ e, match fetch get e with
             | Some decoded =>
                 match transform decoded with
                 | Ok c => Some c
                 | Panic _ => None
                 end
             | None => None
             end) endpoints.

(** Two networks that differ in status codes only. *)
Definition same_but_status (get get' : string → get_result) : Prop :=
  ∀ url, match get url, get' url with
         | GetErr _, GetErr _ => True
         | Response _ body, Response _ body' => body = body'
         | _, _ => False
         end.

(** The orders of a pass are orders of the maps they range over. *)
Definition fair (w : pass Svc Mw) : Prop :=
  (∀ endpoints, range_order endpoints (endpoints_visit w endpoints)) ∧
  (∀ configs, range_order configs (configs_visit w configs)).
End Cycle.

(* ===================================================================== *)
(** * provider.go: the entry-point filtering variant                      *)
(* ===================================================================== *)

Module Filtering.

Record Config := mkConfig {
  PollInterval : string;
  PollTimeout : string;
  ConfigEntryPoints : list string;
  Endpoints : gmap string Endpoint;
}.

Definition CreateConfig : Config :=
  {| PollInterval := "15s"; PollTimeout := "10s";
     Endpoints := ∅; ConfigEntryPoints := [] |}.

(** [time.Duration] is a signed count of nanoseconds. *)
Record Provider := mkProvider {
  name : string;
  pollInterval : Z;
  pollTimeout : Z;
  endpoints : gmap string endpoint;
  entrypoints : gmap string bool;
  cancel : option nat;
}.

Section New.
(** [time.ParseDuration]: a duration or an error. *)
Variable ParseDuration : string → Z + string.

Definition New (config : Config) (name : string) : Provider + string :=
  match ParseDuration (PollInterval config) with
  | inr err => inr err
  | inl pi =>
      match ParseDuration (PollTimeout config) with
      | inr err => inr err
      | inl pt =>
          inl {| name := name;
                 pollInterval := pi;
                 pollTimeout := pt;
                 endpoints :=
                   (λ v, {| endpoint_address := Endpoint_address v;
                            headers := Headers v |}) <$> Endpoints config;
                 entrypoints :=
                   foldl (λ acc entrypoint, <[entrypoint := true]> acc) ∅
                         (ConfigEntryPoints config);
                 cancel := None |}
      end
  end.
End New.

(** provider.go 87-101. [len] is never negative, so [len(m) <= 0] is
    [len(m) = 0]. *)
Definition Init (p : Provider) : error :=
  if bool_decide (pollInterval p ≤ 0) then
    Some "poll interval must be greater than 0"
  else if bool_decide (pollTimeout p ≤ 0) then
    Some "poll timeout must be greater than 0"
  else if bool_decide (Z.of_nat (size (endpoints p)) ≤ 0) then
    Some "must provide at least 1 endpoint"
  else if bool_decide (Z.of_nat (size (entrypoints p)) ≤ 0) then
    Some "must specify at least one entrypoint"
  else None.

Definition set_cancel (p : Provider) (c : option nat) : Provider :=
  {| name := name p; pollInterval := pollInterval p;
     pollTimeout := pollTimeout p; endpoints := endpoints p;
     entrypoints := entrypoints p; cancel := c |}.

(** provider.go 104-119 *)
Definition Provide (p : Provider) (rt : runtime) : Provider * runtime * error :=
  let '(ctx, rt1) := WithCancel rt in
  (set_cancel p (Some ctx), spawn ctx rt1, None).

(** provider.go 230-233 *)
Definition Stop (p : Provider) (rt : runtime) : outcome (runtime * error) :=
  rt' ←! call (cancel p) rt; Ok (rt', None).

(* ------------------------------------------------------------------- *)
(** ** The filter applied to one decoded fragment (provider.go 149-180) *)
(* ------------------------------------------------------------------- *)

(** The inner loop building [entrypoints]: the entries of [v.EntryPoints]
    that are keys of [p.entrypoints], in their order. *)
Definition keep_recognized (recognized : gmap string bool) (eps : list string)
  : list string :=
  filter (λ e, is_Some (recognized !! e)) eps.

(** [if _, ok := toDeleteMiddlewares[m]; !ok { toDeleteMiddlewares[m] = true }] *)
Definition mark_seen (flags : gmap string bool) (m : string) : gmap string bool :=
  match flags !! m with
  | Some _ => flags
  | None => <[m := true]> flags
  end.

(** [toDeleteMiddlewares[m] = false] *)
Definition mark_kept (flags : gmap string bool) (m : string) : gmap string bool :=
  <[m := false]> flags.

(** The three maps the first loop works on: the routers (each [v] is a
    pointer into the fragment, so [v.EntryPoints = ...] updates the
    fragment's router), [toDelete] and [toDeleteMiddlewares]. *)
Record marking := mkMarking {
  routers : gmap string Router;
  toDelete : gmap string string;
  toDeleteMiddlewares : gmap string bool;
}.

(** The body of [for k, v := range config.HTTP.Routers]. *)
Definition visit_router (recognized : gmap string bool) (st : marking)
    (kv : string * Router) : marking :=
  let '(k, v) := kv in
  let entrypoints := keep_recognized recognized (EntryPoints v) in
  let seen := foldl mark_seen (toDeleteMiddlewares st) (Middlewares v) in
  {| routers := <[k := set_EntryPoints v entrypoints]> (routers st);
     toDelete :=
       if bool_decide (length entrypoints = 0%nat)
       then <[k := Service v]> (toDelete st) else toDelete st;
     toDeleteMiddlewares :=
       if bool_decide (length entrypoints = 0%nat)
       then seen else foldl mark_kept seen (Middlewares v) |}.

(** The first loop (lines 151-171), run in the order [visit] on the
    routers [rs] with both bookkeeping maps empty. *)
Definition mark_routers (recognized : gmap string bool)
    (visit : list (string * Router)) (rs : gmap string Router) : marking :=
  foldl (visit_router recognized)
        {| routers := rs; toDelete := ∅; toDeleteMiddlewares := ∅ |} visit.

Section Fragment.
Context {Svc Mw : Type}.

(** The body of [for k, v := range toDelete]. *)
Definition drop_router (h : HTTPConfiguration Svc Mw) (kv : string * string)
  : HTTPConfiguration Svc Mw :=
  {| Routers := delete kv.1 (Routers h);
     Services := delete kv.2 (Services h);
     HTTPMiddlewares := HTTPMiddlewares h |}.

(** The body of [for k, v := range toDeleteMiddlewares]. *)
Definition drop_middleware (mws : gmap string Mw) (kv : string * bool)
  : gmap string Mw :=
  if kv.2 then delete kv.1 mws else mws.

(** Lines 149-180 on a fragment whose routers are ranged over in the
    order [visit]. *)
Definition filter_in (recognized : gmap string bool)
    (visit : list (string * Router)) (h : HTTPConfiguration Svc Mw)
  : HTTPConfiguration Svc Mw :=
  let st := mark_routers recognized visit (Routers h) in
  let h1 := foldl drop_router
                  {| Routers := routers st; Services := Services h;
                     HTTPMiddlewares := HTTPMiddlewares h |}
                  (map_to_list (toDelete st)) in
  {| Routers := Routers h1;
     Services := Services h1;
     HTTPMiddlewares :=
       foldl drop_middleware (HTTPMiddlewares h1)
             (map_to_list (toDeleteMiddlewares st)) |}.

Definition filter_fragment (recognized : gmap string bool)
    (h : HTTPConfiguration Svc Mw) : HTTPConfiguration Svc Mw :=
  filter_in recognized (map_to_list (Routers h)) h.

(** [config.HTTP.Routers] dereferences [config.HTTP], and the body of
    the first loop dereferences every router pointer ([v.EntryPoints]):
    a nil one panics, whatever was done before it is lost with the
    tick. *)
Definition transform (recognized : gmap string bool)
    (c : Configuration Svc Mw) : outcome (Configuration Svc Mw) :=
  match HTTP c with
  | None => Panic nil_dereference
  | Some maps =>
      match fragment_of maps with
      | None => Panic nil_dereference
      | Some h => Ok (document (filter_fragment recognized h))
      end
  end.

(** provider.go 121-189.  [time.NewTicker(p.pollInterval)] comes first
    and panics for an interval that is not above zero. *)
Definition loadConfiguration
    (json_Unmarshal : string → option (Configuration Svc Mw))
    (p : Provider) (events : list (event Svc Mw))
  : list (JSONPayload Svc Mw) * exit :=
  if bool_decide (pollInterval p ≤ 0) then ([], Panicked non_positive_interval)
  else run json_Unmarshal (transform (entrypoints p)) (endpoints p) events [].
End Fragment.

(** A router survives the filter when it keeps an entry point. *)
Definition survives (recognized : gmap string bool) (r : Router) : Prop :=
  keep_recognized recognized (EntryPoints r) ≠ [].

#[global] Instance survives_dec recognized r : Decision (survives recognized r).
Proof. unfold survives. apply _. Defined.

(** The visited router [kv] lists the middleware [m]. *)
Definition refers (m : string) (kv : string * Router) : Prop :=
  m ∈ Middlewares kv.2.

#[global] Instance refers_dec m kv : Decision (refers m kv).
Proof. unfold refers. apply _. Defined.

(** The visited router [kv] lists the middleware [m] and survives. *)
Definition protects (recognized : gmap string bool) (m : string)
    (kv : string * Router) : Prop :=
  m ∈ Middlewares kv.2 ∧ survives recognized kv.2.

#[global] Instance protects_dec recognized m kv : Decision (protects recognized m kv).
Proof. unfold protects. apply _. Defined.

End Filtering.

(* ===================================================================== *)
(** * unnamed/part_000: the middleware rewriting variant                  *)
(* ===================================================================== *)

Module Rewriting.

Record Config := mkConfig {
  PollInterval : string;
  PollTimeout : string;
  Endpoints : gmap string Endpoint;
}.

Definition CreateConfig : Config :=
  {| PollInterval := "15s"; PollTimeout := "10s"; Endpoints := ∅ |}.

Record Provider := mkProvider {
  name : string;
  pollInterval : Z;
  pollTimeout : Z;
  endpoints : gmap string endpoint;
  cancel : option nat;
}.

Section New.
Variable ParseDuration : string → Z + string.

Definition New (config : Config) (name : string) : Provider + string :=
  match ParseDuration (PollInterval config) with
  | inr err => inr err
  | inl pi =>
      match ParseDuration (PollTimeout config) with
      | inr err => inr err
      | inl pt =>
          inl {| name := name;
                 pollInterval := pi;
                 pollTimeout := pt;
                 endpoints :=
                   (λ v, {| endpoint_address := Endpoint_address v;
                            headers := Headers v |}) <$> Endpoints config;
                 cancel := None |}
      end
  end.
End New.

(** part_000 79-90 *)
Definition Init (p : Provider) : error :=
  if bool_decide (pollInterval p ≤ 0) then
    Some "poll interval must be greater than 0"
  else if bool_decide (pollTimeout p ≤ 0) then
    Some "poll timeout must be greater than 0"
  else if bool_decide (Z.of_nat (size (endpoints p)) ≤ 0) then
    Some "must provide at least 1 endpoint"
  else None.

Definition set_cancel (p : Provider) (c : option nat) : Provider :=
  {| name := name p; pollInterval := pollInterval p;
     pollTimeout := pollTimeout p; endpoints := endpoints p; cancel := c |}.

(** part_000 93-108 *)
Definition Provide (p : Provider) (rt : runtime) : Provider * runtime * error :=
  let '(ctx, rt1) := WithCancel rt in
  (set_cancel p (Some ctx), spawn ctx rt1, None).

(** part_000 193-196 *)
Definition Stop (p : Provider) (rt : runtime) : outcome (runtime * error) :=
  rt' ←! call (cancel p) rt; Ok (rt', None).

(* ------------------------------------------------------------------- *)
(** ** [strings.Replace] with a non-empty [old]                         *)
(* ------------------------------------------------------------------- *)

Fixpoint has_prefix (old s : string) : bool :=
  match old, s with
  | EmptyString, _ => true
  | String a old', String b s' => bool_decide (a = b) && has_prefix old' s'
  | String _ _, EmptyString => false
  end.

Fixpoint skip (n : nat) (s : string) : string :=
  match n, s with
  | O, _ => s
  | S n', String _ s' => skip n' s'
  | S _, EmptyString => EmptyString
  end.

(** Left to right, the first [n] non-overlapping occurrences of [old] are
    replaced by [new]; [fuel] bounds the scan by the length of [s]. *)
Fixpoint replace_scan (fuel n : nat) (old new s : string) : string :=
  match fuel, n with
  | O, _ | _, O => s
  | S fuel', S n' =>
      if has_prefix old s
      then new +:+ replace_scan fuel' n' old new (skip (String.length old) s)
      else match s with
           | EmptyString => EmptyString
           | String c s' => String c (replace_scan fuel' n old new s')
           end
  end.

(** [strings.Replace(s, old, new, n)]; a negative [n] puts no limit on the
    number of replacements. *)
Definition Replace (s old new : string) (n : Z) : string :=
  replace_scan (S (String.length s))
               (if bool_decide (n < 0) then S (String.length s) else Z.to_nat n)
               old new s.

(** [old] occurs somewhere in [s] ([strings.Contains(s, old)]). *)
Fixpoint occurs (old s : string) : bool :=
  has_prefix old s ||
  match s with
  | EmptyString => false
  | String _ s' => occurs old s'
  end.

(** part_000 141 *)
Definition rewrite_reference (m : string) : string :=
  Replace m "@http" "@plugin-multi-http-provider" 1.

(** The body of [for _, v := range config.HTTP.Routers] (part_000
    138-144): [v] points into the fragment. *)
Definition rewrite_router (v : Router) : Router :=
  set_Middlewares v (rewrite_reference <$> Middlewares v).

Section Fragment.
Context {Svc Mw : Type}.

Definition visit_router (rs : gmap string Router) (kv : string * Router)
  : gmap string Router :=
  <[kv.1 := rewrite_router kv.2]> rs.

Definition rewrite_in (visit : list (string * Router))
    (h : HTTPConfiguration Svc Mw) : HTTPConfiguration Svc Mw :=
  {| Routers := foldl visit_router (Routers h) visit;
     Services := Services h;
     HTTPMiddlewares := HTTPMiddlewares h |}.

Definition rewrite_fragment (h : HTTPConfiguration Svc Mw)
  : HTTPConfiguration Svc Mw :=
  rewrite_in (map_to_list (Routers h)) h.

(** [config.HTTP.Routers] dereferences [config.HTTP], and the loop
    body dereferences every router pointer ([v.Middlewares]): a nil one
    panics. *)
Definition transform (c : Configuration Svc Mw) : outcome (Configuration Svc Mw) :=
  match HTTP c with
  | None => Panic nil_dereference
  | Some maps =>
      match fragment_of maps with
      | None => Panic nil_dereference
      | Some h => Ok (document (rewrite_fragment h))
      end
  end.

(** part_000 110-152.  [time.NewTicker(p.pollInterval)] comes first and
    panics for an interval that is not above zero. *)
Definition loadConfiguration
    (json_Unmarshal : string → option (Configuration Svc Mw))
    (p : Provider) (events : list (event Svc Mw))
  : list (JSONPayload Svc Mw) * exit :=
  if bool_decide (pollInterval p ≤ 0) then ([], Panicked non_positive_interval)
  else run json_Unmarshal transform (endpoints p) events [].
End Fragment.

End Rewriting.

(* ===================================================================== *)
(** * Further notions used in the statements                              *)
(* ===================================================================== *)

Section Notions.
Context {Svc Mw : Type}.

(** The fragments of a sequence agree on the collection [proj]: a name
    defined by two of them is given the same definition by both. *)
Definition agree {V} (proj : HTTPConfiguration Svc Mw → gmap string V)
    (frags : list (HTTPConfiguration Svc Mw)) : Prop :=
  ∀ h1 h2 name v1 v2, h1 ∈ frags → h2 ∈ frags →
    proj h1 !! name = Some v1 → proj h2 !! name = Some v2 → v1 = v2.

(** A decoded document the policies cannot get through: it has no [http]
    member, or it binds some router name to [null]. *)
Definition unusable (c : Configuration Svc Mw) : Prop :=
  HTTP c = None ∨
  ∃ maps name, HTTP c = Some maps ∧ Routers maps !! name = Some None.

(** The test for the contrary, by evaluation. *)
Definition usable (c : Configuration Svc Mw) : bool :=
  match HTTP c with
  | Some maps => bool_decide (map_Forall (λ _ v, is_Some v) (Routers maps))
  | None => false
  end.

(** Some configured endpoint answers the pass [w], with whatever status,
    with a body that decodes to an unusable document. *)
Definition serves_unusable
    (json_Unmarshal : string → option (Configuration Svc Mw))
    (w : pass Svc Mw) (endpoints : gmap string endpoint) : Prop :=
  ∃ node e status bytes c,
    endpoints !! node = Some e ∧
    http_Get w (config_url e) = Response status (ReadAll bytes) ∧
    json_Unmarshal bytes = Some c ∧ unusable c.

(** On the pass [w] the endpoint [e] hands over the fragment [h]: the
    request returns a response, of whatever status, whose body is read and
    decodes to the document of [h]. *)
Definition received
    (json_Unmarshal : string → option (Configuration Svc Mw))
    (w : pass Svc Mw) (e : endpoint) (h : HTTPConfiguration Svc Mw) : Prop :=
  ∃ status bytes,
    http_Get w (config_url e) = Response status (ReadAll bytes) ∧
    json_Unmarshal bytes = Some (document h).

(** On the pass [w] every body that is received and decoded is the
    document of a fragment: it has an [http] member and no null router. *)
Definition hands_fragments
    (json_Unmarshal : string → option (Configuration Svc Mw))
    (w : pass Svc Mw) (endpoints : gmap string endpoint) : Prop :=
  ∀ node e status bytes c,
    endpoints !! node = Some e →
    http_Get w (config_url e) = Response status (ReadAll bytes) →
    json_Unmarshal bytes = Some c →
    ∃ h, c = document h.

(** The same, by evaluation over the endpoints. *)
Definition fragments_only
    (json_Unmarshal : string → option (Configuration Svc Mw))
    (w : pass Svc Mw) (endpoints : gmap string endpoint) : bool :=
  forallb (λ ne, match fetch json_Unmarshal (http_Get w) ne.2 with
                 | Some c => usable c
                 | None => true
                 end) (map_to_list endpoints).

(** The collection [proj] of [merged] is made of what the endpoints that
    handed over a fragment on the pass [w] hold in that collection once
    transformed by [f], and of nothing else: every entry of [merged] is an
    entry of such a fragment, and every name of such a fragment is in
    [merged]. *)
Definition comes_from
    (json_Unmarshal : string → option (Configuration Svc Mw))
    (w : pass Svc Mw) (endpoints : gmap string endpoint)
    (f : HTTPConfiguration Svc Mw → HTTPConfiguration Svc Mw)
    {V} (proj : HTTPConfiguration Svc Mw → gmap string V)
    (merged : HTTPConfiguration Svc Mw) : Prop :=
  ∀ name,
    (∀ v, proj merged !! name = Some v →
          ∃ node e h, endpoints !! node = Some e ∧
                      received json_Unmarshal w e h ∧
                      proj (f h) !! name = Some v) ∧
    ((∃ node e h, endpoints !! node = Some e ∧
                  received json_Unmarshal w e h ∧
                  is_Some (proj (f h) !! name)) →
     is_Some (proj merged !! name)).

(** No endpoint of the map hands a document to the pass [w]. *)
Definition nobody_answers
    (json_Unmarshal : string → option (Configuration Svc Mw))
    (w : pass Svc Mw) (endpoints : gmap string endpoint) : Prop :=
  ∀ node e, endpoints !! node = Some e →
            fetch json_Unmarshal (http_Get w) e = None.

(** The two passes differ in the status codes of the responses only. *)
Definition differ_in_status (w w' : pass Svc Mw) : Prop :=
  same_but_status (http_Get w) (http_Get w') ∧
  endpoints_visit w = endpoints_visit w' ∧
  configs_visit w = configs_visit w'.
End Notions.

(* ===================================================================== *)
(** * Sample documents                                                    *)
(* ===================================================================== *)

(** Service and middleware bodies are plain text in the samples. *)
Definition nodeA : HTTPConfiguration string string :=
  {| Routers := {[ "app" := {| EntryPoints := ["web"; "websecure"];
                               Middlewares := ["auth"];
                               Service := "svc1"; Rule := "Host(`a`)" |} ]};
     Services := {[ "svc1" := "http://10.0.1.2:80" ]};
     HTTPMiddlewares := {[ "auth" := "basicAuth" ]} |}.

Definition nodeB : HTTPConfiguration string string :=
  {| Routers := {[ "admin" := {| EntryPoints := ["internal"];
                                 Middlewares := ["auth"; "ipallow"];
                                 Service := "svc1"; Rule := "Host(`b`)" |} ]};
     Services := {[ "svc1" := "http://192.168.0.3:80" ]};
     HTTPMiddlewares := {[ "auth" := "digestAuth"; "ipallow" := "ipAllowList" ]} |}.

(** One fragment with a router on recognized entry points and a router on an
    unrecognized one, sharing the middleware [auth]. *)
Definition mixed : HTTPConfiguration string string :=
  {| Routers :=
       {[ "app" := {| EntryPoints := ["web"; "websecure"];
                      Middlewares := ["auth"; "compress"];
                      Service := "svc1"; Rule := "Host(`a`)" |};
          "admin" := {| EntryPoints := ["internal"];
                        Middlewares := ["auth"; "ipallow"];
                        Service := "svc2"; Rule := "Host(`b`)" |} ]};
     Services := {[ "svc1" := "http://10.0.1.2:80"; "svc2" := "http://10.0.1.2:81" ]};
     HTTPMiddlewares :=
       {[ "auth" := "basicAuth"; "compress" := "compress";
          "ipallow" := "ipAllowList" ]} |}.

Definition web_only : gmap string bool := {[ "web" := true ]}.

(** [admin] first, then [app]. *)
Definition admin_first : list (string * Router) :=
  [("admin", {| EntryPoints := ["internal"];
                Middlewares := ["auth"; "ipallow"];
                Service := "svc2"; Rule := "Host(`b`)" |});
   ("app", {| EntryPoints := ["web"; "websecure"];
              Middlewares := ["auth"; "compress"];
              Service := "svc1"; Rule := "Host(`a`)" |})].

(** A router whose middleware reference carries the tag twice. *)
Definition twice_tagged : HTTPConfiguration string string :=
  {| Routers := {[ "r" := {| EntryPoints := ["web"];
                             Middlewares := ["auth@http@http"];
                             Service := "svc1"; Rule := "Host(`a`)" |} ]};
     Services := {[ "svc1" := "http://10.0.1.2:80" ]};
     HTTPMiddlewares := {[ "auth" := "basicAuth" ]} |}.

(** Response bodies.  The text of a routing document is not spelled out: each
    body below stands for the JSON text of the document the sample decoder
    returns for it, except [{}], which is the empty JSON object itself. *)
Definition body_of_mixed : string := "<document of mixed>".
Definition body_of_nodeB : string := "<document of nodeB>".
Definition body_empty_object : string := "{}".

(** A decoder that knows the sample bodies.  An empty JSON object decodes to a
    configuration whose [HTTP] pointer stays nil. *)
Definition sample_Unmarshal (body : string) : option (Configuration string string) :=
  if decide (body = body_of_mixed) then Some (document mixed)
  else if decide (body = body_of_nodeB) then Some (document nodeB)
  else if decide (body = body_empty_object) then Some {| HTTP := None |}
  else None.

Definition two_endpoints : gmap string endpoint :=
  {[ "server1" := {| endpoint_address := "10.0.1.2"; headers := ∅ |};
     "server2" := {| endpoint_address := "192.168.0.3";
                     headers := {[ "X-Custom-Header" := "value" ]} |} ]}.

Definition filtering_provider : Filtering.Provider :=
  {| Filtering.name := "multi-http-provider";
     Filtering.pollInterval := 60000000000;
     Filtering.pollTimeout := 30000000000;
     Filtering.endpoints := two_endpoints;
     Filtering.entrypoints := web_only;
     Filtering.cancel := Some 0%nat |}.

Definition rewriting_provider : Rewriting.Provider :=
  {| Rewriting.name := "multi-http-provider";
     Rewriting.pollInterval := 60000000000;
     Rewriting.pollTimeout := 30000000000;
     Rewriting.endpoints := two_endpoints;
     Rewriting.cancel := Some 0%nat |}.

(** A network in which [server1] answers [first] and [server2] answers
    [second]; any other address cannot be reached. *)
Definition network (first second : get_result) (url : string) : get_result :=
  if decide (url = "http://10.0.1.2:5000/traefik/config") then first
  else if decide (url = "http://192.168.0.3:5000/traefik/config") then second
  else GetErr "no route to host".

Definition pass_with (get : string → get_result) : pass string string :=
  {| http_Get := get;
     endpoints_visit := map_to_list;
     configs_visit := map_to_list |}.

(** [server1] serves [mixed]; the connection to [server2] is refused. *)
Definition one_down : pass string string :=
  pass_with (network (Response 200 (ReadAll body_of_mixed))
                     (GetErr "connection refused")).

(** Nobody answers. *)
Definition all_down : pass string string :=
  pass_with (network (GetErr "connection refused")
                     (Response 200 (ReadErr "unexpected EOF"))).

(** [server1] serves [mixed]; [server2] answers with an empty JSON object. *)
Definition one_empty_object : pass string string :=
  pass_with (network (Response 200 (ReadAll body_of_mixed))
                     (Response 200 (ReadAll body_empty_object))).

(** [server1] answers 500 with the document [mixed] as its body. *)
Definition one_internal_error : pass string string :=
  pass_with (network (Response 500 (ReadAll body_of_mixed))
                     (GetErr "connection refused")).

(** ** An encoder in the layout of [encoding/json]

    Members come in the order of the struct fields, map keys are sorted,
    empty members are left out ([omitempty]) and a nil pointer is written
    [null].  Strings stand between double quotes, with the double quote and
    the backslash escaped.  The bodies of services and middlewares are the
    texts of the samples, written as strings.  No configuration makes it
    fail. *)
Definition quote_char : Ascii.ascii :=
  Ascii.Ascii false true false false false true false false.

Definition backslash_char : Ascii.ascii :=
  Ascii.Ascii false false true true true false true false.

Fixpoint json_escape (s : string) : string :=
  match s with
  | EmptyString => EmptyString
  | String c rest =>
      if decide (c = quote_char)
      then String backslash_char (String quote_char (json_escape rest))
      else if decide (c = backslash_char)
      then String backslash_char (String backslash_char (json_escape rest))
      else String c (json_escape rest)
  end.

Definition json_string (s : string) : string :=
  String quote_char (json_escape s +:+ String quote_char "").

Fixpoint json_join (l : list string) : string :=
  match l with
  | [] => ""
  | x :: rest =>
      match rest with
      | [] => x
      | _ :: _ => x +:+ "," +:+ json_join rest
      end
  end.

Definition json_array (l : list string) : string :=
  "[" +:+ json_join (json_string <$> l) +:+ "]".

(** An object of the members that are present. *)
Definition json_object (members : list (option string)) : string :=
  "{" +:+ json_join (omap id members) +:+ "}".

Definition json_member (key value : string) : string :=
  json_string key +:+ ":" +:+ value.

(** A member that [omitempty] drops when the string or list is empty. *)
Definition json_text_member (key value : string) : option string :=
  if decide (value = "") then None else Some (json_member key (json_string value)).

Definition json_list_member (key : string) (l : list string) : option string :=
  match l with
  | [] => None
  | _ :: _ => Some (json_member key (json_array l))
  end.

Definition json_router (r : Router) : string :=
  json_object [json_list_member "entryPoints" (EntryPoints r);
               json_list_member "middlewares" (Middlewares r);
               json_text_member "service" (Service r);
               json_text_member "rule" (Rule r)].

Definition json_router_pointer (v : option Router) : string :=
  match v with
  | Some r => json_router r
  | None => "null"
  end.

(** A map member, keys sorted, dropped when the map is empty. *)
Definition json_map_member {V} (key : string) (enc : V → string)
    (m : gmap string V) : option string :=
  match merge_sort (λ a b : string * V, String.le a.1 b.1) (map_to_list m) with
  | [] => None
  | entries =>
      Some (json_member key
              (json_object ((λ kv, Some (json_member kv.1 (enc kv.2))) <$> entries)))
  end.

Definition json_http (maps : HTTPMaps string string (option Router)) : string :=
  json_object [json_map_member "routers" json_router_pointer (Routers maps);
               json_map_member "services" json_string (Services maps);
               json_map_member "middlewares" json_string (HTTPMiddlewares maps)].

Definition encode_json (c : Configuration string string) : string * error :=
  (json_object [(λ maps, json_member "http" (json_http maps)) <$> HTTP c], None).

(** A third node, whose names collide with none of [nodeA]'s. *)
Definition nodeC : HTTPConfiguration string string :=
  {| Routers := {[ "blog" := {| EntryPoints := ["web"];
                                Middlewares := ["compress"];
                                Service := "svc3"; Rule := "Host(`c`)" |} ]};
     Services := {[ "svc3" := "http://10.0.1.4:80" ]};
     HTTPMiddlewares := {[ "compress" := "compress" ]} |}.

(** [app] of [mixed] once filtered against [web_only]. *)
Definition app_filtered : Router :=
  {| EntryPoints := ["web"]; Middlewares := ["auth"; "compress"];
     Service := "svc1"; Rule := "Host(`a`)" |}.

(** Both servers answer, [server2] with a status of 404. *)
Definition both_up : pass string string :=
  pass_with (network (Response 200 (ReadAll body_of_mixed))
                     (Response 404 (ReadAll body_of_nodeB))).

(** A parser that knows the durations of the samples, in nanoseconds. *)
Definition sample_ParseDuration (s : string) : Z + string :=
  if decide (s = "15s") then inl 15000000000
  else if decide (s = "10s") then inl 10000000000
  else inr "time: invalid duration".

(** The endpoints of the samples, in the order [server2], [server1], with and
    without their headers. *)
Definition with_headers : list (string * endpoint) :=
  [("server2", {| endpoint_address := "192.168.0.3";
                  headers := {[ "X-Custom-Header" := "value" ]} |});
   ("server1", {| endpoint_address := "10.0.1.2"; headers := ∅ |})].

Definition without_headers : list (string * endpoint) :=
  [("server2", {| endpoint_address := "192.168.0.3"; headers := ∅ |});
   ("server1", {| endpoint_address := "10.0.1.2"; headers := ∅ |})].

(** [mixed] with one more middleware, which no router lists. *)
Definition with_spare : HTTPConfiguration string string :=
  {| Routers := Routers mixed;
     Services := Services mixed;
     HTTPMiddlewares := <[ "spare" := "headers" ]> (HTTPMiddlewares mixed) |}.

(** A document that binds the router name [ghost] to [null]. *)
Definition ghost_document : Configuration string string :=
  {| HTTP := Some {| Routers := {[ "ghost" := None ]};
                     Services := ∅; HTTPMiddlewares := ∅ |} |}.

Definition body_of_ghost : string := "<document with a null router>".

(** [sample_Unmarshal] extended with the body of [ghost_document]. *)
Definition ghost_Unmarshal (body : string) : option (Configuration string string) :=
  if decide (body = body_of_ghost) then Some ghost_document
  else sample_Unmarshal body.

(** [server1] serves [mixed]; [server2] answers 503 with a document that
    holds a null router. *)
Definition one_ghost : pass string string :=
  pass_with (network (Response 200 (ReadAll body_of_mixed))
                     (Response 503 (ReadAll body_of_ghost))).

(** The passes [both_up] with every status set to 200. *)
Definition both_up_200 : pass string string :=
  pass_with (network (Response 200 (ReadAll body_of_mixed))
                     (Response 200 (ReadAll body_of_nodeB))).

(** A provider whose poll interval is zero. *)
Definition zero_interval_provider : Filtering.Provider :=
  {| Filtering.name := "multi-http-provider";
     Filtering.pollInterval := 0;
     Filtering.pollTimeout := 30000000000;
     Filtering.endpoints := two_endpoints;
     Filtering.entrypoints := web_only;
     Filtering.cancel := Some 0%nat |}.

(* ===================================================================== *)
(** * Ranging over a map                                                  *)
(* ===================================================================== *)

Section Ranging.
Context {V : Type}.
Implicit Types (m : gmap string V) (visit : list (string * V)).

Lemma range_order_canonical m : range_order m (map_to_list m).
Proof. unfold range_order. reflexivity. Qed.

Lemma range_order_NoDup m visit : range_order m visit → NoDup visit.*1.
Proof.
  unfold range_order. intros ->. apply NoDup_fst_map_to_list.
Qed.

Lemma range_order_elem m visit k v :
  range_order m visit → (k, v) ∈ visit ↔ m !! k = Some v.
Proof.
  unfold range_order. intros ->. apply elem_of_map_to_list.
Qed.

Lemma range_order_to_map m visit : range_order m visit → list_to_map visit = m.
Proof.
  intros Hv. rewrite <- (list_to_map_to_list m).
  apply list_to_map_proper; [by eapply range_order_NoDup | exact Hv].
Qed.

(** Whatever the order, the loop of [mergeConfig] adds the entries whose
    name is still free. *)
Lemma range_put_lookup visit (dst : gmap string V) name :
  range_put dst visit !! name =
    match dst !! name with
    | Some v => Some v
    | None => (list_to_map visit : gmap string V) !! name
    end.
Proof.
  unfold range_put. revert dst.
  induction visit as [|[k v] visit IH]; intros dst; simpl.
  - rewrite lookup_empty. by destruct (dst !! name).
  - rewrite IH. unfold put_absent; simpl.
    destruct (decide (k = name)) as [->|Hne].
    + rewrite lookup_insert_eq.
      destruct (dst !! name) eqn:E; [by rewrite E | by rewrite lookup_insert_eq].
    + rewrite (lookup_insert_ne _ k name) by done.
      destruct (dst !! k); [done | by rewrite lookup_insert_ne].
Qed.

Lemma range_put_any_order m visit (dst : gmap string V) :
  range_order m visit → range_put dst visit = range_put dst (map_to_list m).
Proof.
  intros Hv. apply map_eq. intros name.
  rewrite !range_put_lookup, list_to_map_to_list.
  by rewrite (range_order_to_map m visit Hv).
Qed.

Lemma range_put_src m (dst : gmap string V) name :
  range_put dst (map_to_list m) !! name =
    match dst !! name with Some v => Some v | None => m !! name end.
Proof. by rewrite range_put_lookup, list_to_map_to_list. Qed.
End Ranging.

(* ===================================================================== *)
(** * [mergeConfig]                                                       *)
(* ===================================================================== *)

Section Merge.
Context {Svc Mw : Type}.
Implicit Types (h acc : HTTPConfiguration Svc Mw)
               (frags : list (HTTPConfiguration Svc Mw)).

Lemma HTTPMaps_eq {R} (a b : HTTPMaps Svc Mw R) :
  Routers a = Routers b → Services a = Services b →
  HTTPMiddlewares a = HTTPMiddlewares b → a = b.
Proof. destruct a, b; cbn. by intros -> -> ->. Qed.

(** Putting the routers behind pointers and merging commute. *)
Lemma merge_into_pointers acc h :
  merge_into (pointers acc) (pointers h) = pointers (merge_into acc h).
Proof.
  apply HTTPMaps_eq; [|done..]. apply map_eq. intros name.
  cbn [merge_into pointers Routers].
  rewrite range_put_src, !lookup_fmap, range_put_src.
  by destruct (Routers acc !! name), (Routers h !! name).
Qed.

Lemma merge_loop_documents frags acc :
  merge_loop (pointers acc) (document <$> frags) =
    Ok (pointers (foldl merge_into acc frags)).
Proof.
  revert acc. induction frags as [|h frags IH]; intros acc; simpl; [done|].
  rewrite merge_into_pointers. apply IH.
Qed.

Lemma pointers_empty : pointers (Svc:=Svc) (Mw:=Mw) emptyHTTP = emptyHTTP.
Proof.
  apply HTTPMaps_eq; [|done..]. cbn [pointers emptyHTTP Routers].
  apply fmap_empty.
Qed.

Lemma mergeConfig_documents frags :
  mergeConfig (document <$> frags) = Ok (document (foldl merge_into emptyHTTP frags)).
Proof.
  unfold mergeConfig. rewrite <- pointers_empty.
  by rewrite merge_loop_documents.
Qed.

(** A collection of the fold: what was there stays, the rest comes from the
    earliest fragment that has the name. *)
Lemma merge_fold_lookup {V} (proj : HTTPConfiguration Svc Mw → gmap string V)
    frags acc name :
  (∀ a h n, proj (merge_into a h) !! n =
              match proj a !! n with Some v => Some v | None => proj h !! n end) →
  proj (foldl merge_into acc frags) !! name =
    match proj acc !! name with
    | Some v => Some v
    | None => earliest proj frags name
    end.
Proof.
  intros Hstep. revert acc.
  induction frags as [|h frags IH]; intros acc; simpl.
  - by destruct (proj acc !! name).
  - rewrite IH, Hstep.
    destruct (proj acc !! name); [done|]. by destruct (proj h !! name).
Qed.

Lemma merge_into_Routers a h n :
  Routers (merge_into a h) !! n =
    match Routers a !! n with Some v => Some v | None => Routers h !! n end.
Proof. apply range_put_src. Qed.

Lemma merge_into_Services a h n :
  Services (merge_into a h) !! n =
    match Services a !! n with Some v => Some v | None => Services h !! n end.
Proof. apply range_put_src. Qed.

Lemma merge_into_Middlewares a h n :
  HTTPMiddlewares (merge_into a h) !! n =
    match HTTPMiddlewares a !! n with
    | Some v => Some v
    | None => HTTPMiddlewares h !! n
    end.
Proof. apply range_put_src. Qed.

Lemma earliest_first {V} (proj : HTTPConfiguration Svc Mw → gmap string V)
    frags name v :
  earliest proj frags name = Some v ↔ first_definition proj frags name v.
Proof.
  unfold first_definition. induction frags as [|h frags IH]; simpl.
  - split; [done|]. intros (i & h & Hi & _). by rewrite lookup_nil in Hi.
  - destruct (proj h !! name) as [w|] eqn:Hh.
    + split.
      * intros [= ->]. exists 0%nat, h. split_and!; [done..|]. intros; lia.
      * intros (i & h' & Hi & Hv & Hbefore). destruct i as [|i].
        -- simpl in Hi. injection Hi as <-. congruence.
        -- specialize (Hbefore 0%nat h ltac:(lia) eq_refl). congruence.
    + rewrite IH. split.
      * intros (i & h' & Hi & Hv & Hbefore). exists (S i), h'.
        split_and!; [done..|]. intros [|j] h'' Hj Hlook; simpl in Hlook.
        -- by injection Hlook as <-.
        -- eapply Hbefore; [|done]. lia.
      * intros (i & h' & Hi & Hv & Hbefore). destruct i as [|i].
        -- simpl in Hi. injection Hi as <-. congruence.
        -- exists i, h'. split_and!; [done..|]. intros j h'' Hj Hlook.
           apply (Hbefore (S j) h''); [lia | done].
Qed.

Lemma earliest_elem {V} (proj : HTTPConfiguration Svc Mw → gmap string V)
    frags name v :
  earliest proj frags name = Some v → ∃ h, h ∈ frags ∧ proj h !! name = Some v.
Proof.
  induction frags as [|h frags IH]; simpl; [done|].
  destruct (proj h !! name) as [w|] eqn:Hh.
  - intros [= ->]. exists h. split; [apply list_elem_of_here | done].
  - intros Hrest. destruct (IH Hrest) as (h' & Hin & Hv).
    exists h'. split; [by apply list_elem_of_further | done].
Qed.

Lemma earliest_defined {V} (proj : HTTPConfiguration Svc Mw → gmap string V)
    frags name h :
  h ∈ frags → is_Some (proj h !! name) → is_Some (earliest proj frags name).
Proof.
  induction frags as [|h' frags IH]; simpl.
  - intros Hin. by apply elem_of_nil in Hin.
  - intros Hin Hsome. destruct (proj h' !! name) as [w|] eqn:Hh; [by eexists|].
    apply elem_of_cons in Hin as [->|Hin].
    + rewrite Hh in Hsome. by destruct Hsome.
    + by apply IH.
Qed.

Lemma merged_lookup {V} (proj : HTTPConfiguration Svc Mw → gmap string V)
    frags name :
  (∀ a h n, proj (merge_into a h) !! n =
              match proj a !! n with Some v => Some v | None => proj h !! n end) →
  proj emptyHTTP = ∅ →
  proj (foldl merge_into emptyHTTP frags) !! name = earliest proj frags name.
Proof.
  intros Hstep Hempty. rewrite merge_fold_lookup by done.
  by rewrite Hempty, lookup_empty.
Qed.

(** C4. Merging is first-writer-wins.  For every sequence of fragments, in
    the order [mergeConfig] visits them, the call returns (no panic, no
    error) a configuration in which a router, service or middleware name is
    bound exactly to the definition given by the earliest fragment of the
    sequence that defines the name; same-named entries of later fragments
    are dropped.  The result is a function of the sequence. *)
Theorem mergeConfig_first_writer_wins frags :
  ∃ merged,
    mergeConfig (document <$> frags) = Ok (document merged) ∧
    ∀ name,
      (∀ r, Routers merged !! name = Some r ↔
            first_definition Routers frags name r) ∧
      (∀ s, Services merged !! name = Some s ↔
            first_definition Services frags name s) ∧
      (∀ m, HTTPMiddlewares merged !! name = Some m ↔
            first_definition HTTPMiddlewares frags name m).
Proof.
  exists (foldl merge_into emptyHTTP frags).
  split; [apply mergeConfig_documents|].
  intros name. split_and!; intros v; rewrite <- earliest_first.
  - by rewrite (merged_lookup Routers) by (done || apply merge_into_Routers).
  - by rewrite (merged_lookup Services) by (done || apply merge_into_Services).
  - by rewrite (merged_lookup HTTPMiddlewares)
      by (done || apply merge_into_Middlewares).
Qed.

(** C10. Merging keeps references resolvable.  When every fragment of the
    sequence resolves its own routers' service and middleware references,
    [mergeConfig] returns a configuration in which every router has its
    service and each of its middlewares among the merged services and
    middlewares. *)
Theorem mergeConfig_resolvable frags :
  Forall resolvable frags →
  ∃ merged,
    mergeConfig (document <$> frags) = Ok (document merged) ∧
    resolvable merged.
Proof.
  intros Hall. exists (foldl merge_into emptyHTTP frags).
  split; [apply mergeConfig_documents|].
  intros name r Hr.
  rewrite (merged_lookup Routers) in Hr by (done || apply merge_into_Routers).
  apply earliest_elem in Hr as (h & Hin & Hr).
  rewrite Forall_forall in Hall.
  destruct (Hall h Hin name r Hr) as [Hsvc Hmws]. split.
  - rewrite (merged_lookup Services) by (done || apply merge_into_Services).
    by eapply earliest_defined.
  - rewrite Forall_forall in Hmws |- *. intros m Hm.
    rewrite (merged_lookup HTTPMiddlewares)
      by (done || apply merge_into_Middlewares).
    eapply earliest_defined; [done | by apply Hmws].
Qed.
End Merge.

Lemma mergeConfig_resolvable_witness :
  Forall resolvable [nodeA; nodeB] ∧
  ∃ merged,
    mergeConfig (document <$> [nodeA; nodeB]) = Ok (document merged) ∧
    resolvable merged.
Proof.
  assert (Hall : Forall resolvable [nodeA; nodeB]).
  { apply (bool_decide_unpack _). vm_compute. exact I. }
  split; [exact Hall|]. exact (mergeConfig_resolvable [nodeA; nodeB] Hall).
Defined.

(* ===================================================================== *)
(** * [Init], [Provide], [Stop], [MarshalJSON]                            *)
(* ===================================================================== *)

(** C7. [Init] returns nil exactly on a valid provider: poll interval and
    poll timeout above zero, at least one endpoint and, in the filtering
    variant only, at least one recognized entry point.  Otherwise it returns
    the error of the first check that fails, each with its own message. *)
Theorem Init_validation :
  (∀ p : Filtering.Provider,
     (Filtering.Init p = None ↔
        0 < Filtering.pollInterval p ∧ 0 < Filtering.pollTimeout p ∧
        (0 < size (Filtering.endpoints p))%nat ∧
        (0 < size (Filtering.entrypoints p))%nat) ∧
     (Filtering.Init p ≠ None ↔
        Filtering.Init p ∈
          [Some "poll interval must be greater than 0";
           Some "poll timeout must be greater than 0";
           Some "must provide at least 1 endpoint";
           Some "must specify at least one entrypoint"])) ∧
  (∀ p : Rewriting.Provider,
     (Rewriting.Init p = None ↔
        0 < Rewriting.pollInterval p ∧ 0 < Rewriting.pollTimeout p ∧
        (0 < size (Rewriting.endpoints p))%nat) ∧
     (Rewriting.Init p ≠ None ↔
        Rewriting.Init p ∈
          [Some "poll interval must be greater than 0";
           Some "poll timeout must be greater than 0";
           Some "must provide at least 1 endpoint"])).
Proof.
  split; intros p.
  - unfold Filtering.Init.
    repeat case_bool_decide;
      (split; [ split; [intros ?; try discriminate; lia | intros ?; try done; lia]
              | rewrite !elem_of_cons, elem_of_nil; intuition congruence ]).
  - unfold Rewriting.Init.
    repeat case_bool_decide;
      (split; [ split; [intros ?; try discriminate; lia | intros ?; try done; lia]
              | rewrite !elem_of_cons, elem_of_nil; intuition congruence ]).
Qed.

(** Which check fails decides the message (filtering variant). *)
Lemma Filtering_Init_messages (p : Filtering.Provider) :
  Filtering.Init p =
    if bool_decide (Filtering.pollInterval p ≤ 0)
    then Some "poll interval must be greater than 0"
    else if bool_decide (Filtering.pollTimeout p ≤ 0)
    then Some "poll timeout must be greater than 0"
    else if bool_decide (Filtering.endpoints p = ∅)
    then Some "must provide at least 1 endpoint"
    else if bool_decide (Filtering.entrypoints p = ∅)
    then Some "must specify at least one entrypoint"
    else None.
Proof.
  unfold Filtering.Init.
  assert (Hsize : ∀ {V} (m : gmap string V), Z.of_nat (size m) ≤ 0 ↔ m = ∅).
  { intros V m. rewrite <- map_size_empty_iff. lia. }
  repeat case_bool_decide; try done; exfalso;
    rewrite ?Hsize in *; tauto.
Qed.

(** The recognized entry points built by [New] are the configured ones. *)
Lemma entrypoints_of_list (eps : list string) (acc : gmap string bool) e :
  is_Some (foldl (λ acc entrypoint, <[entrypoint := true]> acc) acc eps !! e) ↔
  e ∈ eps ∨ is_Some (acc !! e).
Proof.
  revert acc. induction eps as [|x eps IH]; intros acc; simpl.
  - rewrite elem_of_nil. tauto.
  - rewrite IH, elem_of_cons. destruct (decide (x = e)) as [->|Hne].
    + rewrite lookup_insert_eq. split; [intros _; by left; left|].
      intros _. right. by eexists.
    + rewrite lookup_insert_ne by done.
      split; [intros [Hin|Hacc]; [left; by right | by right]|].
      intros [[Heq|Hin]|Hacc]; [congruence | by left | by right].
Qed.

Lemma New_entrypoints (ParseDuration : string → Z + string)
    (config : Filtering.Config) (name : string) (p : Filtering.Provider) e :
  Filtering.New ParseDuration config name = inl p →
  is_Some (Filtering.entrypoints p !! e) ↔ e ∈ Filtering.ConfigEntryPoints config.
Proof.
  unfold Filtering.New.
  destruct (ParseDuration (Filtering.PollInterval config)); [|done].
  destruct (ParseDuration (Filtering.PollTimeout config)); [|done].
  intros [= <-]. cbn [Filtering.entrypoints].
  rewrite entrypoints_of_list, lookup_empty.
  split; [intros [?|[? ?]]; done | by left].
Qed.

(** Once [Provide] has run, [Stop] returns nil and ends the context made by
    that [Provide]; a second [Stop] returns nil and changes nothing. *)
Lemma Filtering_Stop_after_Provide (p : Filtering.Provider) (rt : runtime) :
  let '(p1, rt1, err) := Filtering.Provide p rt in
  err = None ∧
  ∃ rt2, Filtering.Stop p1 rt1 = Ok (rt2, None) ∧
         contexts rt2 !! length (contexts rt) = Some true ∧
         Filtering.Stop p1 rt2 = Ok (rt2, None).
Proof.
  unfold Filtering.Provide, Filtering.Stop; simpl. split; [done|].
  eexists. split; [reflexivity|]. simpl. split.
  - rewrite list_lookup_insert_eq; [done|]. rewrite length_app; simpl. lia.
  - by rewrite list_insert_insert_eq.
Qed.

Lemma Rewriting_Stop_after_Provide (p : Rewriting.Provider) (rt : runtime) :
  let '(p1, rt1, err) := Rewriting.Provide p rt in
  err = None ∧
  ∃ rt2, Rewriting.Stop p1 rt1 = Ok (rt2, None) ∧
         contexts rt2 !! length (contexts rt) = Some true ∧
         Rewriting.Stop p1 rt2 = Ok (rt2, None).
Proof.
  unfold Rewriting.Provide, Rewriting.Stop; simpl. split; [done|].
  eexists. split; [reflexivity|]. simpl. split.
  - rewrite list_lookup_insert_eq; [done|]. rewrite length_app; simpl. lia.
  - by rewrite list_insert_insert_eq.
Qed.

(** C8, at the input where the code departs from it.  A provider as [New]
    returns it has a nil [cancel]; [Stop] on it, before any [Provide], calls
    the nil function and panics instead of returning nil.  Both variants. *)
Theorem Stop_before_Provide_panics
    (ParseDuration : string → Z + string) (rt : runtime) :
  (∀ config name,
     match Filtering.New ParseDuration config name with
     | inl p => Filtering.Stop p rt = Panic nil_dereference
     | inr _ => True
     end) ∧
  (∀ config name,
     match Rewriting.New ParseDuration config name with
     | inl p => Rewriting.Stop p rt = Panic nil_dereference
     | inr _ => True
     end).
Proof.
  split; intros config name.
  - unfold Filtering.New.
    destruct (ParseDuration (Filtering.PollInterval config)); [|done].
    destruct (ParseDuration (Filtering.PollTimeout config)); done.
  - unfold Rewriting.New.
    destruct (ParseDuration (Rewriting.PollInterval config)); [|done].
    destruct (ParseDuration (Rewriting.PollTimeout config)); done.
Qed.

Section Marshaling.
Context {Svc Mw : Type}.
Variable json_Marshal : Configuration Svc Mw → string * error.

(** [json.Marshal] is the library's encoder.  A configuration is plain
    data (strings, lists, maps keyed by strings, pointers), which the
    encoder writes without an error. *)
Hypothesis json_Marshal_total : ∀ cfg, (json_Marshal cfg).2 = None.

End Marshaling.

(** The encoder of the samples never fails. *)
Lemma encode_json_total cfg : (encode_json cfg).2 = None.
Proof. reflexivity. Qed.


(** What arrives on the channel's other side for three payloads: a
    configuration without [http] member, one with a null router, and no
    configuration at all. *)
Example MarshalJSON_samples :
  MarshalJSON encode_json {| config := Some {| HTTP := None |} |} = ("{}", None) ∧
  MarshalJSON encode_json {| config := Some ghost_document |} =
    (json_object
       [Some (json_member "http"
          (json_object
             [Some (json_member "routers"
                (json_object [Some (json_member "ghost" "null")]))]))], None) ∧
  MarshalJSON encode_json {| config := None |} =
    ("", Some "unable to serialize configuration").
Proof. split_and!; vm_compute; reflexivity. Qed.

Example Stop_twice :
  let '(p, rt, _) := Filtering.Provide filtering_provider
                       {| contexts := []; drivers := [] |} in
  Filtering.Stop p rt = Ok ({| contexts := [true]; drivers := [0%nat] |}, None) ∧
  Filtering.Stop p {| contexts := [true]; drivers := [0%nat] |} =
    Ok ({| contexts := [true]; drivers := [0%nat] |}, None).
Proof. split; reflexivity. Qed.

(* ===================================================================== *)
(** * provider.go: the filter on one fragment                             *)
(* ===================================================================== *)

Section FilterMarks.
Import Filtering.
Variable recognized : gmap string bool.
Implicit Types (flags : gmap string bool) (st : marking)
               (visit : list (string * Router)).

Lemma keep_recognized_elem eps e :
  e ∈ keep_recognized recognized eps ↔ e ∈ eps ∧ is_Some (recognized !! e).
Proof. unfold keep_recognized. rewrite list_elem_of_filter. tauto. Qed.

Lemma keep_recognized_sublist eps : sublist (keep_recognized recognized eps) eps.
Proof. apply sublist_filter. Qed.

Lemma keep_recognized_again eps :
  keep_recognized recognized (keep_recognized recognized eps) =
  keep_recognized recognized eps.
Proof.
  unfold keep_recognized. induction eps as [|e eps IH]; [done|].
  rewrite filter_cons. case_decide as He; [|done].
  rewrite filter_cons. rewrite decide_True by done. by rewrite IH.
Qed.

Lemma mark_seen_lookup ms flags m :
  foldl mark_seen flags ms !! m =
    match flags !! m with
    | Some b => Some b
    | None => if decide (m ∈ ms) then Some true else None
    end.
Proof.
  revert flags. induction ms as [|x ms IH]; intros flags; cbn [foldl].
  - rewrite decide_False by apply not_elem_of_nil. by destruct (flags !! m).
  - rewrite IH. unfold mark_seen.
    destruct (decide (x = m)) as [->|Hne].
    + destruct (flags !! m) as [b|] eqn:Hm; [by rewrite Hm|].
      rewrite lookup_insert_eq.
      by rewrite decide_True by apply list_elem_of_here.
    + assert (Hx : (match flags !! x with
                    | Some _ => flags
                    | None => <[x:=true]> flags
                    end) !! m = flags !! m).
      { destruct (flags !! x); [done | by rewrite lookup_insert_ne]. }
      rewrite Hx. destruct (flags !! m); [done|].
      apply decide_ext. rewrite elem_of_cons. intuition congruence.
Qed.

Lemma mark_kept_lookup ms flags m :
  foldl mark_kept flags ms !! m =
    if decide (m ∈ ms) then Some false else flags !! m.
Proof.
  revert flags. induction ms as [|x ms IH]; intros flags; cbn [foldl].
  - by rewrite decide_False by apply not_elem_of_nil.
  - rewrite IH. unfold mark_kept.
    destruct (decide (m ∈ ms)) as [Hin|Hout].
    + by rewrite decide_True by by apply list_elem_of_further.
    + destruct (decide (x = m)) as [->|Hne].
      * rewrite lookup_insert_eq.
        by rewrite decide_True by apply list_elem_of_here.
      * rewrite lookup_insert_ne by done.
        rewrite decide_False; [done|]. rewrite elem_of_cons. intuition congruence.
Qed.

Lemma length_zero_survives r :
  length (keep_recognized recognized (EntryPoints r)) = 0%nat ↔
  ¬ survives recognized r.
Proof.
  unfold survives. rewrite length_zero_iff_nil.
  destruct (keep_recognized recognized (EntryPoints r)); intuition congruence.
Qed.

(** The flag of [m] after one router. *)
Lemma visit_router_flag st k v m :
  toDeleteMiddlewares (visit_router recognized st (k, v)) !! m =
    if decide (protects recognized m (k, v)) then Some false
    else match toDeleteMiddlewares st !! m with
         | Some b => Some b
         | None => if decide (refers m (k, v)) then Some true else None
         end.
Proof.
  unfold visit_router. cbv beta iota zeta. cbn [toDeleteMiddlewares].
  destruct (decide (protects recognized m (k, v))) as [[Hin Hsurv]|Hnp].
  - cbn [snd] in Hin, Hsurv.
    rewrite bool_decide_eq_false_2 by (rewrite length_zero_survives; tauto).
    by rewrite mark_kept_lookup, decide_True.
  - destruct (decide (refers m (k, v))) as [Hr|Hr]; unfold refers in Hr;
      cbn [snd] in Hr.
    + rewrite bool_decide_eq_true_2.
      * by rewrite mark_seen_lookup, decide_True.
      * rewrite length_zero_survives. intros Hsurv. by apply Hnp.
    + case_bool_decide.
      * by rewrite mark_seen_lookup, decide_False.
      * rewrite mark_kept_lookup, decide_False by done.
        rewrite mark_seen_lookup, decide_False by done.
        by destruct (toDeleteMiddlewares st !! m).
Qed.

(** The flag of [m] after the whole first loop, whatever the order: false
    when a surviving router lists [m], else true when some router does. *)
Lemma marking_flag visit st m :
  toDeleteMiddlewares (foldl (visit_router recognized) st visit) !! m =
    if decide (Exists (protects recognized m) visit) then Some false
    else match toDeleteMiddlewares st !! m with
         | Some b => Some b
         | None => if decide (Exists (refers m) visit) then Some true else None
         end.
Proof.
  revert st. induction visit as [|[k v] visit IH]; intros st; cbn [foldl].
  - rewrite decide_False by (by intros ?%Exists_nil).
    rewrite (decide_False (P := Exists _ [])) by (by intros ?%Exists_nil).
    by destruct (toDeleteMiddlewares st !! m).
  - rewrite IH, visit_router_flag.
    destruct (decide (Exists (protects recognized m) ((k, v) :: visit)))
      as [Hp|Hp].
    + apply Exists_cons in Hp as [Hk|Hp].
      * destruct (decide (Exists (protects recognized m) visit)); [done|].
        by rewrite decide_True.
      * by rewrite decide_True.
    + rewrite Exists_cons in Hp.
      rewrite decide_False by tauto.
      rewrite (decide_False (P := protects recognized m (k, v))) by tauto.
      destruct (toDeleteMiddlewares st !! m) as [b|]; [done|].
      destruct (decide (refers m (k, v))) as [Hr|Hr].
      * by rewrite decide_True by (by apply Exists_cons_hd).
      * apply decide_ext. rewrite Exists_cons. tauto.
Qed.

Lemma marking_routers visit st k :
  NoDup visit.*1 →
  routers (foldl (visit_router recognized) st visit) !! k =
    match (list_to_map visit : gmap string Router) !! k with
    | Some v => Some (set_EntryPoints v (keep_recognized recognized (EntryPoints v)))
    | None => routers st !! k
    end.
Proof.
  revert st. induction visit as [|[k' v] visit IH]; intros st Hnd; cbn [foldl list_to_map foldr]; [done|].
  apply NoDup_cons in Hnd as [Hfresh Hnd]. rewrite IH by done.
  destruct (decide (k' = k)) as [->|Hne].
  - rewrite lookup_insert_eq.
    rewrite (not_elem_of_list_to_map_1 visit k) by done.
    unfold visit_router. cbv beta iota zeta. cbn [routers].
    by rewrite lookup_insert_eq.
  - rewrite (lookup_insert_ne _ k' k) by done.
    unfold visit_router. cbv beta iota zeta. cbn [routers].
    by rewrite lookup_insert_ne.
Qed.

Lemma marking_toDelete visit st k :
  NoDup visit.*1 →
  toDelete (foldl (visit_router recognized) st visit) !! k =
    match (list_to_map visit : gmap string Router) !! k with
    | Some v => if decide (survives recognized v)
                then toDelete st !! k else Some (Service v)
    | None => toDelete st !! k
    end.
Proof.
  revert st. induction visit as [|[k' v] visit IH]; intros st Hnd; cbn [foldl list_to_map foldr]; [done|].
  apply NoDup_cons in Hnd as [Hfresh Hnd]. rewrite IH by done.
  destruct (decide (k' = k)) as [->|Hne].
  - rewrite lookup_insert_eq.
    rewrite (not_elem_of_list_to_map_1 visit k) by done.
    unfold visit_router. cbv beta iota zeta. cbn [toDelete].
    case_bool_decide as Hlen; rewrite length_zero_survives in Hlen.
    + rewrite decide_False by done. by rewrite lookup_insert_eq.
    + apply dec_stable in Hlen. by rewrite decide_True by done.
  - rewrite (lookup_insert_ne _ k' k) by done.
    assert (Hstep : toDelete (visit_router recognized st (k', v)) !! k
                    = toDelete st !! k).
    { unfold visit_router. cbv beta iota zeta. cbn [toDelete].
      case_bool_decide; [|done].
      by rewrite lookup_insert_ne. }
    by rewrite Hstep.
Qed.
End FilterMarks.

Section FilterFragment.
Import Filtering.
Context {Svc Mw : Type}.
Variable recognized : gmap string bool.
Implicit Types (h : HTTPConfiguration Svc Mw) (visit : list (string * Router)).

Lemma drop_router_Routers (l : list (string * string)) h k :
  Routers (foldl drop_router h l) !! k =
    if decide (k ∈ l.*1) then None else Routers h !! k.
Proof.
  revert h. induction l as [|[k' s'] l IH]; intros h; cbn [foldl fmap list_fmap].
  - by rewrite decide_False by apply not_elem_of_nil.
  - rewrite IH. unfold drop_router; cbn [Routers fst].
    destruct (decide (k ∈ l.*1)) as [Hin|Hout].
    + by rewrite decide_True by (by apply list_elem_of_further).
    + destruct (decide (k' = k)) as [->|Hne].
      * rewrite lookup_delete_eq.
        by rewrite decide_True by apply list_elem_of_here.
      * rewrite lookup_delete_ne by done.
        rewrite decide_False; [done|]. rewrite elem_of_cons. intuition congruence.
Qed.

Lemma drop_router_Services (l : list (string * string)) h s :
  Services (foldl drop_router h l) !! s =
    if decide (s ∈ l.*2) then None else Services h !! s.
Proof.
  revert h. induction l as [|[k' s'] l IH]; intros h; cbn [foldl fmap list_fmap].
  - by rewrite decide_False by apply not_elem_of_nil.
  - rewrite IH. unfold drop_router; cbn [Services snd].
    destruct (decide (s ∈ l.*2)) as [Hin|Hout].
    + by rewrite decide_True by (by apply list_elem_of_further).
    + destruct (decide (s' = s)) as [->|Hne].
      * rewrite lookup_delete_eq.
        by rewrite decide_True by apply list_elem_of_here.
      * rewrite lookup_delete_ne by done.
        rewrite decide_False; [done|]. rewrite elem_of_cons. intuition congruence.
Qed.

Lemma drop_router_Middlewares (l : list (string * string)) h :
  HTTPMiddlewares (foldl drop_router h l) = HTTPMiddlewares h.
Proof.
  revert h. induction l as [|kv l IH]; intros h; cbn [foldl]; [done|].
  by rewrite IH.
Qed.

Lemma drop_middleware_lookup (l : list (string * bool)) (mws : gmap string Mw) m :
  foldl drop_middleware mws l !! m =
    if decide ((m, true) ∈ l) then None else mws !! m.
Proof.
  revert mws. induction l as [|[m' b] l IH]; intros mws; cbn [foldl].
  - by rewrite decide_False by apply not_elem_of_nil.
  - rewrite IH. unfold drop_middleware; cbn [fst snd].
    destruct (decide ((m, true) ∈ l)) as [Hin|Hout].
    + by rewrite decide_True by (by apply list_elem_of_further).
    + destruct b.
      * destruct (decide (m' = m)) as [->|Hne].
        -- rewrite lookup_delete_eq.
           by rewrite decide_True by apply list_elem_of_here.
        -- rewrite lookup_delete_ne by done.
           rewrite decide_False; [done|]. rewrite elem_of_cons.
           intuition congruence.
      * rewrite decide_False; [done|]. rewrite elem_of_cons.
        intuition congruence.
Qed.

Lemma keys_of_map {V} (m : gmap string V) k :
  k ∈ (map_to_list m).*1 ↔ is_Some (m !! k).
Proof.
  rewrite list_elem_of_fmap. split.
  - intros ([k' v] & -> & Hin). apply elem_of_map_to_list in Hin. by eexists.
  - intros [v Hv]. exists (k, v). split; [done|]. by apply elem_of_map_to_list.
Qed.

Lemma values_of_map {V} (m : gmap string V) v :
  v ∈ (map_to_list m).*2 ↔ ∃ k, m !! k = Some v.
Proof.
  rewrite list_elem_of_fmap. split.
  - intros ([k v'] & -> & Hin). apply elem_of_map_to_list in Hin. by exists k.
  - intros [k Hk]. exists (k, v). split; [done|]. by apply elem_of_map_to_list.
Qed.

Lemma Exists_range {V} (P : string * V → Prop) (m : gmap string V) l :
  range_order m l → Exists P l ↔ ∃ k v, m !! k = Some v ∧ P (k, v).
Proof.
  intros Hl. rewrite Exists_exists. split.
  - intros ([k v] & Hin & HP). exists k, v.
    split; [by apply (range_order_elem m l) | done].
  - intros (k & v & Hkv & HP). exists (k, v).
    split; [by apply (range_order_elem m l) | done].
Qed.

Lemma marked_routers visit h k :
  range_order (Routers h) visit →
  routers (mark_routers recognized visit (Routers h)) !! k =
    (λ v, set_EntryPoints v (keep_recognized recognized (EntryPoints v)))
      <$> Routers h !! k.
Proof.
  intros Hv. unfold mark_routers.
  rewrite marking_routers by (by eapply range_order_NoDup).
  rewrite (range_order_to_map _ _ Hv). cbn [routers].
  by destruct (Routers h !! k).
Qed.

Lemma marked_toDelete visit h k :
  range_order (Routers h) visit →
  toDelete (mark_routers recognized visit (Routers h)) !! k =
    match Routers h !! k with
    | Some v => if decide (survives recognized v) then None else Some (Service v)
    | None => None
    end.
Proof.
  intros Hv. unfold mark_routers.
  rewrite marking_toDelete by (by eapply range_order_NoDup).
  rewrite (range_order_to_map _ _ Hv). cbn [toDelete].
  by rewrite lookup_empty.
Qed.

Lemma marked_flag visit h m :
  toDeleteMiddlewares (mark_routers recognized visit (Routers h)) !! m =
    if decide (Exists (protects recognized m) visit) then Some false
    else if decide (Exists (refers m) visit) then Some true else None.
Proof.
  unfold mark_routers. rewrite marking_flag. cbn [toDeleteMiddlewares].
  by rewrite lookup_empty.
Qed.

Lemma filter_in_Routers visit h k :
  Routers (filter_in recognized visit h) !! k =
    if decide (is_Some (toDelete (mark_routers recognized visit (Routers h)) !! k)) then None
    else routers (mark_routers recognized visit (Routers h)) !! k.
Proof.
  unfold filter_in. cbv zeta. cbn [Routers].
  rewrite drop_router_Routers. cbn [Routers].
  apply decide_ext, keys_of_map.
Qed.

Lemma filter_in_Services visit h s :
  Services (filter_in recognized visit h) !! s =
    if decide (s ∈ (map_to_list (toDelete (mark_routers recognized visit (Routers h)))).*2) then None
    else Services h !! s.
Proof.
  unfold filter_in. cbv zeta. cbn [Services].
  by rewrite drop_router_Services.
Qed.

Lemma filter_in_Middlewares visit h m :
  HTTPMiddlewares (filter_in recognized visit h) !! m =
    if decide (toDeleteMiddlewares (mark_routers recognized visit (Routers h)) !! m = Some true) then None
    else HTTPMiddlewares h !! m.
Proof.
  unfold filter_in. cbv zeta. cbn [HTTPMiddlewares].
  rewrite drop_middleware_lookup, drop_router_Middlewares.
  cbn [HTTPMiddlewares]. apply decide_ext, elem_of_map_to_list.
Qed.

(** The order in which the routers are ranged over does not show in the
    result. *)
Lemma filter_in_any_order visit h :
  range_order (Routers h) visit →
  filter_in recognized visit h = filter_fragment recognized h.
Proof.
  intros Hv. unfold filter_fragment.
  assert (Hst : mark_routers recognized visit (Routers h) =
                mark_routers recognized (map_to_list (Routers h)) (Routers h)).
  { pose proof (range_order_canonical (Routers h)) as Hc.
    destruct (mark_routers recognized visit (Routers h)) as [rs td fl] eqn:E1.
    destruct (mark_routers recognized (map_to_list (Routers h)) (Routers h))
      as [rs' td' fl'] eqn:E2.
    f_equal; apply map_eq; intros x.
    - change rs with (routers (mkMarking rs td fl)).
      change rs' with (routers (mkMarking rs' td' fl')).
      rewrite <- E1, <- E2. by rewrite !marked_routers.
    - change td with (toDelete (mkMarking rs td fl)).
      change td' with (toDelete (mkMarking rs' td' fl')).
      rewrite <- E1, <- E2. by rewrite !marked_toDelete.
    - change fl with (toDeleteMiddlewares (mkMarking rs td fl)).
      change fl' with (toDeleteMiddlewares (mkMarking rs' td' fl')).
      rewrite <- E1, <- E2. rewrite !marked_flag.
      rewrite (decide_ext _ (Exists (protects recognized x)
                                    (map_to_list (Routers h))))
        by (by rewrite !(Exists_range _ (Routers h))).
      destruct (decide (Exists (protects recognized x)
                               (map_to_list (Routers h)))); [done|].
      apply decide_ext. by rewrite !(Exists_range _ (Routers h)). }
  unfold filter_in. cbv zeta. by rewrite Hst.
Qed.


(** C2. Middleware retention.  Whatever the order in which the routers are
    ranged over: a middleware listed by at least one surviving router keeps
    its entry in the fragment, also when a removed router lists it too; a
    middleware listed by some router and by removed routers only has no
    entry left. *)
Theorem filter_middleware_retention visit h :
  range_order (Routers h) visit →
  ∀ m,
    (∀ k r, Routers h !! k = Some r → m ∈ Middlewares r →
            survives recognized r →
            HTTPMiddlewares (filter_in recognized visit h) !! m =
            HTTPMiddlewares h !! m) ∧
    ((∃ k r, Routers h !! k = Some r ∧ m ∈ Middlewares r) →
     (∀ k r, Routers h !! k = Some r → m ∈ Middlewares r →
             ¬ survives recognized r) →
     HTTPMiddlewares (filter_in recognized visit h) !! m = None).
Proof.
  intros Hv m. split.
  - intros k r Hk Hm Hs.
    rewrite filter_in_Middlewares, marked_flag.
    rewrite (decide_True (P := Exists (protects recognized m) visit)).
    + by rewrite decide_False.
    + apply (Exists_range _ (Routers h) visit Hv). by exists k, r.
  - intros (k & r & Hk & Hm) Hall.
    rewrite filter_in_Middlewares, marked_flag.
    rewrite (decide_False (P := Exists (protects recognized m) visit)).
    + rewrite (decide_True (P := Exists (refers m) visit)).
      * by rewrite decide_True.
      * apply (Exists_range _ (Routers h) visit Hv). by exists k, r.
    + intros (k' & r' & Hk' & Hm' & Hs')%(Exists_range _ (Routers h) visit Hv).
      by apply (Hall k' r').
Qed.

(** A middleware no router lists is left alone. *)
Lemma filter_unlisted_middleware visit h m :
  range_order (Routers h) visit →
  (∀ k r, Routers h !! k = Some r → m ∉ Middlewares r) →
  HTTPMiddlewares (filter_in recognized visit h) !! m = HTTPMiddlewares h !! m.
Proof.
  intros Hv Hnone. rewrite filter_in_Middlewares, marked_flag.
  assert (Hr : ¬ Exists (refers m) visit).
  { intros (k & r & Hk & Hm)%(Exists_range _ (Routers h) visit Hv).
    by apply (Hnone k r). }
  rewrite (decide_False (P := Exists (protects recognized m) visit)).
  - rewrite (decide_False (P := Exists (refers m) visit)) by done.
    by rewrite decide_False.
  - intros (k & r & Hk & Hm & _)%(Exists_range _ (Routers h) visit Hv).
    by apply (Hnone k r).
Qed.
End FilterFragment.


Lemma filter_middleware_retention_witness :
  range_order (Routers mixed) admin_first ∧
  ∀ m,
    (∀ k r, Routers mixed !! k = Some r → m ∈ Middlewares r →
            Filtering.survives web_only r →
            HTTPMiddlewares (Filtering.filter_in web_only admin_first mixed) !! m =
            HTTPMiddlewares mixed !! m) ∧
    ((∃ k r, Routers mixed !! k = Some r ∧ m ∈ Middlewares r) →
     (∀ k r, Routers mixed !! k = Some r → m ∈ Middlewares r →
             ¬ Filtering.survives web_only r) →
     HTTPMiddlewares (Filtering.filter_in web_only admin_first mixed) !! m = None).
Proof.
  assert (Hv : range_order (Routers mixed) admin_first).
  { unfold range_order. vm_compute. first [reflexivity | apply perm_swap]. }
  split; [exact Hv|].
  exact (filter_middleware_retention web_only admin_first mixed Hv).
Defined.

(** The two samples of the specification, run through the code: [app] keeps
    [web] only; [admin] and its service go; the shared [auth] stays and
    [ipallow], listed by [admin] alone, goes. *)
Example filter_mixed :
  Routers (Filtering.filter_fragment web_only mixed) !! "app" =
    Some {| EntryPoints := ["web"]; Middlewares := ["auth"; "compress"];
            Service := "svc1"; Rule := "Host(`a`)" |} ∧
  Routers (Filtering.filter_fragment web_only mixed) !! "admin" = None ∧
  Services (Filtering.filter_fragment web_only mixed) !! "svc2" = None ∧
  Services (Filtering.filter_fragment web_only mixed) !! "svc1" =
    Some "http://10.0.1.2:80" ∧
  HTTPMiddlewares (Filtering.filter_fragment web_only mixed) !! "auth" =
    Some "basicAuth" ∧
  HTTPMiddlewares (Filtering.filter_fragment web_only mixed) !! "ipallow" = None ∧
  Filtering.filter_in web_only admin_first mixed =
    Filtering.filter_fragment web_only mixed.
Proof. vm_compute. repeat split. Qed.

(* ===================================================================== *)
(** * unnamed/part_000: rewriting the middleware references               *)
(* ===================================================================== *)

Section RewriteReference.
Import Rewriting.

Lemma replace_scan_zero fuel old new s : replace_scan fuel 0 old new s = s.
Proof. by destruct fuel. Qed.

(** With a count of one the scan stops at the first occurrence. *)
Lemma replace_scan_once fuel old new s :
  replace_scan (S fuel) 1 old new s =
    if has_prefix old s then new +:+ skip (String.length old) s
    else match s with
         | EmptyString => EmptyString
         | String c s' => String c (replace_scan fuel 1 old new s')
         end.
Proof. cbn [replace_scan]. by rewrite replace_scan_zero. Qed.

Lemma occurs_tail old c s : occurs old (String c s) = false → occurs old s = false.
Proof.
  cbn [occurs]. intros H. apply orb_false_iff in H as [_ H]. exact H.
Qed.

Lemma occurs_head old s : occurs old s = false → has_prefix old s = false.
Proof.
  destruct s; cbn [occurs]; intros H; by apply orb_false_iff in H as [H _].
Qed.

(** A string without [old] in it comes back as it is. *)
Lemma replace_scan_absent fuel n old new s :
  occurs old s = false → replace_scan fuel n old new s = s.
Proof.
  revert n s. induction fuel as [|fuel IH]; intros n s Hs; [done|].
  destruct n as [|n]; [done|]. cbn [replace_scan].
  rewrite (occurs_head _ _ Hs). destruct s as [|c s]; [done|].
  f_equal. apply IH. by eapply occurs_tail.
Qed.

Lemma rewrite_reference_absent m :
  occurs "@http" m = false → rewrite_reference m = m.
Proof. intros Hm. unfold rewrite_reference, Replace. by apply replace_scan_absent. Qed.

(** Where the rewritten reference no longer carries the tag, rewriting it
    again changes nothing. *)
Lemma rewrite_reference_settled m :
  occurs "@http" (rewrite_reference m) = false →
  rewrite_reference (rewrite_reference m) = rewrite_reference m.
Proof. apply rewrite_reference_absent. Qed.

Example rewrite_auth :
  rewrite_reference "auth@http" = "auth@plugin-multi-http-provider" ∧
  rewrite_reference "auth@plugin-multi-http-provider" =
    "auth@plugin-multi-http-provider" ∧
  rewrite_reference "auth@file" = "auth@file" ∧
  rewrite_reference "auth@http@http" = "auth@plugin-multi-http-provider@http".
Proof. vm_compute. repeat split. Qed.
End RewriteReference.

Section RewriteFragment.
Import Rewriting.
Context {Svc Mw : Type}.
Implicit Types (h : HTTPConfiguration Svc Mw) (visit : list (string * Router)).

Lemma rewrite_visit_lookup visit (rs : gmap string Router) k :
  NoDup visit.*1 →
  foldl visit_router rs visit !! k =
    match (list_to_map visit : gmap string Router) !! k with
    | Some v => Some (rewrite_router v)
    | None => rs !! k
    end.
Proof.
  revert rs. induction visit as [|[k' v] visit IH]; intros rs Hnd;
    cbn [foldl list_to_map foldr]; [done|].
  apply NoDup_cons in Hnd as [Hfresh Hnd]. rewrite IH by done.
  unfold visit_router; cbn [fst snd].
  destruct (decide (k' = k)) as [->|Hne].
  - rewrite lookup_insert_eq.
    rewrite (not_elem_of_list_to_map_1 visit k) by done.
    by rewrite lookup_insert_eq.
  - rewrite (lookup_insert_ne _ k' k) by done.
    by rewrite lookup_insert_ne.
Qed.

(** Every router has its references rewritten, in whatever order the
    routers are ranged over; nothing else in the fragment changes and no
    entry is removed. *)
Lemma rewrite_in_fmap visit h :
  range_order (Routers h) visit →
  rewrite_in visit h =
    {| Routers := rewrite_router <$> Routers h;
       Services := Services h;
       HTTPMiddlewares := HTTPMiddlewares h |}.
Proof.
  intros Hv. unfold rewrite_in. f_equal. apply map_eq. intros k.
  rewrite rewrite_visit_lookup by (by eapply range_order_NoDup).
  rewrite (range_order_to_map _ _ Hv), lookup_fmap.
  by destruct (Routers h !! k).
Qed.

Lemma rewrite_fragment_fmap h :
  rewrite_fragment h =
    {| Routers := rewrite_router <$> Routers h;
       Services := Services h;
       HTTPMiddlewares := HTTPMiddlewares h |}.
Proof. apply rewrite_in_fmap, range_order_canonical. Qed.

Lemma rewrite_router_fields v :
  EntryPoints (rewrite_router v) = EntryPoints v ∧
  Service (rewrite_router v) = Service v ∧
  Rule (rewrite_router v) = Rule v ∧
  Middlewares (rewrite_router v) = rewrite_reference <$> Middlewares v.
Proof. done. Qed.

(** On a fragment whose rewritten references no longer carry the tag, the
    second application is the identity. *)
Lemma rewrite_fragment_settled h :
  (∀ k v m, Routers h !! k = Some v → m ∈ Middlewares v →
            occurs "@http" (rewrite_reference m) = false) →
  rewrite_fragment (rewrite_fragment h) = rewrite_fragment h.
Proof.
  intros Hsettled. rewrite !rewrite_fragment_fmap. cbn [Routers Services HTTPMiddlewares].
  f_equal. apply map_eq. intros k. rewrite !lookup_fmap.
  destruct (Routers h !! k) as [v|] eqn:Hk; [|done]. cbn [fmap option_fmap option_map].
  f_equal. unfold rewrite_router, set_Middlewares; cbn [EntryPoints Middlewares Service Rule].
  f_equal. rewrite <- list_fmap_compose.
  apply list_fmap_ext. intros i m Hm. cbn [compose].
  apply rewrite_reference_settled. apply (Hsettled k v m); [done|].
  by eapply list_elem_of_lookup_2.
Qed.
End RewriteFragment.

(** C3, at the input where the code departs from it.  The reference
    [auth@http@http] is rewritten to [auth@plugin-multi-http-provider@http];
    applying the transform to that output substitutes once more and gives
    [auth@plugin-multi-http-provider@plugin-multi-http-provider]: on this
    fragment the transform is not idempotent. *)
Theorem rewrite_twice_differs :
  Middlewares <$> Routers (Rewriting.rewrite_fragment twice_tagged) !! "r" =
    Some ["auth@plugin-multi-http-provider@http"] ∧
  Middlewares <$>
    Routers (Rewriting.rewrite_fragment (Rewriting.rewrite_fragment twice_tagged))
      !! "r" =
    Some ["auth@plugin-multi-http-provider@plugin-multi-http-provider"] ∧
  Rewriting.rewrite_fragment (Rewriting.rewrite_fragment twice_tagged) ≠
    Rewriting.rewrite_fragment twice_tagged.
Proof.
  assert (H1 : Middlewares <$>
                 Routers (Rewriting.rewrite_fragment twice_tagged) !! "r" =
               Some ["auth@plugin-multi-http-provider@http"])
    by (vm_compute; reflexivity).
  assert (H2 : Middlewares <$>
                 Routers (Rewriting.rewrite_fragment
                            (Rewriting.rewrite_fragment twice_tagged)) !! "r" =
               Some ["auth@plugin-multi-http-provider@plugin-multi-http-provider"])
    by (vm_compute; reflexivity).
  split_and!; [exact H1 | exact H2 |].
  intros Heq. rewrite Heq, H1 in H2. discriminate H2.
Qed.

(* ===================================================================== *)
(** * One pass of [loadConfiguration]                                     *)
(* ===================================================================== *)

Section CycleFacts.
Context {Svc Mw : Type}.
Variable json_Unmarshal : string → option (Configuration Svc Mw).
Variable transform : Configuration Svc Mw → outcome (Configuration Svc Mw).
Implicit Types (get : string → get_result) (e : endpoint)
               (visit : list (string * endpoint))
               (configs : gmap string (Configuration Svc Mw)).

Lemma fetch_Some get e c :
  fetch json_Unmarshal get e = Some c ↔
  ∃ status bytes, get (config_url e) = Response status (ReadAll bytes) ∧
                  json_Unmarshal bytes = Some c.
Proof.
  unfold fetch. destruct (get (config_url e)) as [err|status [err|bytes]].
  - split; [done|]. by intros (? & ? & ? & _).
  - split; [done|]. by intros (? & ? & ? & _).
  - split; [by exists status, bytes|]. by intros (? & ? & [= _ <-] & ?).
Qed.

Lemma fetch_same_but_status get get' e :
  same_but_status get get' →
  fetch json_Unmarshal get e = fetch json_Unmarshal get' e.
Proof.
  intros Hsame. specialize (Hsame (config_url e)). unfold fetch.
  destruct (get (config_url e)) as [?|? ?], (get' (config_url e)) as [?|? ?];
    try done.
  by subst.
Qed.

Lemma poll_same_but_status get get' visit configs :
  same_but_status get get' →
  poll json_Unmarshal transform get visit configs =
  poll json_Unmarshal transform get' visit configs.
Proof.
  intros Hsame. revert configs.
  induction visit as [|[node e] visit IH]; intros configs; cbn [poll]; [done|].
  rewrite (fetch_same_but_status get get' e Hsame).
  destruct (fetch json_Unmarshal get' e) as [c|]; [|apply IH].
  destruct (transform c) as [c'|msg]; cbn [obind]; [apply IH | done].
Qed.

(** A decoded document on which the policy panics takes the whole loop
    over the endpoints down. *)
Lemma poll_panics get visit configs node e c msg :
  (node, e) ∈ visit →
  fetch json_Unmarshal get e = Some c →
  transform c = Panic msg →
  ∃ msg', poll json_Unmarshal transform get visit configs = Panic msg'.
Proof.
  intros Hin Hfetch Hpanic. revert configs.
  induction visit as [|[node' e'] visit IH]; intros configs.
  - by apply elem_of_nil in Hin.
  - cbn [poll]. apply elem_of_cons in Hin as [[= <- <-]|Hin].
    + rewrite Hfetch, Hpanic. by eexists.
    + destruct (fetch json_Unmarshal get e') as [c'|]; [|by apply IH].
      destruct (transform c') as [c''|msg']; cbn [obind];
        [by apply IH | by eexists].
Qed.

(** Without such a document the loop ends, and [configs] holds, under each
    node whose fetch succeeded, its transformed document. *)
Lemma poll_lookup get visit configs :
  NoDup visit.*1 →
  (∀ node e c, (node, e) ∈ visit → fetch json_Unmarshal get e = Some c →
               ∃ c', transform c = Ok c') →
  ∃ configs',
    poll json_Unmarshal transform get visit configs = Ok configs' ∧
    ∀ node,
      configs' !! node =
        match (list_to_map visit : gmap string endpoint) !! node with
        | Some e =>
            match fetch json_Unmarshal get e with
            | Some c => match transform c with
                        | Ok c' => Some c'
                        | Panic _ => None
                        end
            | None => configs !! node
            end
        | None => configs !! node
        end.
Proof.
  revert configs. induction visit as [|[node' e'] visit IH];
    intros configs Hnd Hok; cbn [poll list_to_map foldr].
  - exists configs. split; [done|]. intros node. by rewrite lookup_empty.
  - apply NoDup_cons in Hnd as [Hfresh Hnd].
    assert (Hok' : ∀ node e c, (node, e) ∈ visit →
              fetch json_Unmarshal get e = Some c → ∃ c', transform c = Ok c').
    { intros node e c Hin. apply (Hok node). by apply list_elem_of_further. }
    destruct (fetch json_Unmarshal get e') as [c|] eqn:Hfetch.
    + destruct (Hok node' e' c (list_elem_of_here _ _) Hfetch) as [c' Hc'].
      rewrite Hc'. cbn [obind].
      destruct (IH (<[node':=c']> configs) Hnd Hok') as (configs' & Hpoll & Hlook).
      exists configs'. split; [done|]. intros node. rewrite Hlook.
      cbn [fst snd]. destruct (decide (node' = node)) as [->|Hne].
      * rewrite lookup_insert_eq.
        rewrite (not_elem_of_list_to_map_1 visit node) by done.
        by rewrite lookup_insert_eq, Hfetch, Hc'.
      * rewrite (lookup_insert_ne (list_to_map visit)) by done.
        destruct ((list_to_map visit : gmap string endpoint) !! node) as [e|];
          [destruct (fetch json_Unmarshal get e)|];
          by rewrite ?lookup_insert_ne by done.
    + destruct (IH configs Hnd Hok') as (configs' & Hpoll & Hlook).
      exists configs'. split; [done|]. intros node. rewrite Hlook.
      cbn [fst snd]. destruct (decide (node' = node)) as [->|Hne].
      * rewrite lookup_insert_eq.
        rewrite (not_elem_of_list_to_map_1 visit node) by done.
        by rewrite Hfetch.
      * by rewrite (lookup_insert_ne (list_to_map visit)) by done.
Qed.

Lemma poll_collected get (endpoints : gmap string endpoint) visit :
  range_order endpoints visit →
  (∀ node e c, endpoints !! node = Some e →
               fetch json_Unmarshal get e = Some c → ∃ c', transform c = Ok c') →
  poll json_Unmarshal transform get visit ∅ =
    Ok (collected json_Unmarshal transform get endpoints).
Proof.
  intros Hv Hok.
  destruct (poll_lookup get visit ∅) as (configs' & Hpoll & Hlook).
  - by eapply range_order_NoDup.
  - intros node e c Hin. apply (Hok node). by apply (range_order_elem _ visit).
  - rewrite Hpoll. f_equal. apply map_eq. intros node.
    rewrite Hlook, (range_order_to_map _ _ Hv).
    unfold collected. rewrite lookup_omap, lookup_empty.
    destruct (endpoints !! node) as [e|]; [|done]. cbn [mbind option_bind].
    by destruct (fetch json_Unmarshal get e).
Qed.

Lemma all_documents (l : list (Configuration Svc Mw)) :
  (∀ c, c ∈ l → ∃ h, c = document h) → ∃ frags, l = document <$> frags.
Proof.
  induction l as [|c l IH]; intros Hall.
  - by exists [].
  - destruct (Hall c (list_elem_of_here _ _)) as [h ->].
    destruct IH as [frags ->].
    + intros c Hc. apply Hall. by apply list_elem_of_further.
    + by exists (h :: frags).
Qed.

(** Where every decoded document gets through the policy, a pass sends
    one payload: the merge, in the order [configs] is ranged over, of the
    transformed documents of the endpoints whose fetch succeeded. *)
Lemma tick_sends (endpoints : gmap string endpoint) (w : pass Svc Mw) :
  fair w →
  (∀ node e c, endpoints !! node = Some e →
               fetch json_Unmarshal (http_Get w) e = Some c →
               ∃ h, transform c = Ok (document h)) →
  ∃ frags,
    (configs_visit w
       (collected json_Unmarshal transform (http_Get w) endpoints)).*2 =
      document <$> frags ∧
    tick json_Unmarshal transform endpoints w =
      Ok {| PayloadConfiguration :=
              Some (document (foldl merge_into emptyHTTP frags)) |}.
Proof.
  intros [Hev Hcv] Hok. unfold tick.
  rewrite (poll_collected (http_Get w) endpoints).
  2: { apply Hev. }
  2: { intros node e c He Hf. destruct (Hok node e c He Hf) as [h Hh].
       by exists (document h). }
  cbn [obind].
  destruct (all_documents
              (configs_visit w
                 (collected json_Unmarshal transform (http_Get w) endpoints)).*2)
    as [frags Hfrags].
  - intros c ([node c'] & -> & Hin)%list_elem_of_fmap. cbn [snd].
    apply (range_order_elem _ _ _ _ (Hcv _)) in Hin.
    unfold collected in Hin. rewrite lookup_omap in Hin.
    destruct (endpoints !! node) as [e|] eqn:He; [|done].
    cbn [mbind option_bind] in Hin.
    destruct (fetch json_Unmarshal (http_Get w) e) as [c|] eqn:Hf; [|done].
    destruct (Hok node e c He Hf) as [h Hh]. rewrite Hh in Hin.
    exists h. congruence.
  - exists frags. split; [done|]. rewrite Hfrags.
    by rewrite mergeConfig_documents.
Qed.

(** With no successful fetch the payload still goes out, and carries the
    configuration with three empty maps. *)
Lemma tick_all_failed (endpoints : gmap string endpoint) (w : pass Svc Mw) :
  fair w →
  (∀ node e, endpoints !! node = Some e →
             fetch json_Unmarshal (http_Get w) e = None) →
  tick json_Unmarshal transform endpoints w =
    Ok {| PayloadConfiguration := Some (document emptyHTTP) |}.
Proof.
  intros [Hev Hcv] Hnone. unfold tick.
  rewrite (poll_collected (http_Get w) endpoints).
  - cbn [obind].
    assert (Hempty : collected json_Unmarshal transform (http_Get w) endpoints = ∅).
    { apply map_eq. intros node. unfold collected.
      rewrite lookup_omap, lookup_empty.
      destruct (endpoints !! node) as [e|] eqn:He; [|done].
      cbn [mbind option_bind]. by rewrite (Hnone node e He). }
    rewrite Hempty.
    pose proof (Hcv ∅) as Hperm. unfold range_order in Hperm.
    rewrite map_to_list_empty in Hperm. apply Permutation_nil_r in Hperm.
    by rewrite Hperm.
  - apply Hev.
  - intros node e c He Hf. rewrite (Hnone node e He) in Hf. discriminate.
Qed.

(** The status code of a response is never looked at. *)
Lemma tick_same_but_status (endpoints : gmap string endpoint) (w w' : pass Svc Mw) :
  same_but_status (http_Get w) (http_Get w') →
  endpoints_visit w = endpoints_visit w' →
  configs_visit w = configs_visit w' →
  tick json_Unmarshal transform endpoints w =
  tick json_Unmarshal transform endpoints w'.
Proof.
  intros Hsame Hev Hcv. unfold tick.
  rewrite (poll_same_but_status _ (http_Get w') _ _ Hsame).
  by rewrite Hev, Hcv.
Qed.
End CycleFacts.

(* ===================================================================== *)
(** * Documents the policies get through                                  *)
(* ===================================================================== *)

Section Usable.
Context {Svc Mw : Type}.
Implicit Types (c : Configuration Svc Mw) (h : HTTPConfiguration Svc Mw)
               (maps : HTTPMaps Svc Mw (option Router)).

Lemma pointers_all_Some h :
  map_Forall (λ _ v, is_Some v) (Routers (pointers h)).
Proof.
  intros name v. cbn [pointers Routers]. rewrite lookup_fmap.
  destruct (Routers h !! name); cbn; [|done]. intros [= <-]. by eexists.
Qed.

Lemma fragment_of_pointers h : fragment_of (pointers h) = Some h.
Proof.
  unfold fragment_of. rewrite decide_True by apply pointers_all_Some.
  f_equal. apply HTTPMaps_eq; cbn [pointers Routers Services HTTPMiddlewares];
    [|done..].
  apply map_eq. intros name. rewrite lookup_omap, lookup_fmap.
  by destruct (Routers h !! name).
Qed.

Lemma fragment_of_Some maps h : fragment_of maps = Some h → maps = pointers h.
Proof.
  unfold fragment_of.
  destruct (decide (map_Forall (λ _ v, is_Some v) (Routers maps)))
    as [Hall|]; [|done].
  intros [= <-].
  apply HTTPMaps_eq; cbn [pointers Routers Services HTTPMiddlewares]; [|done..].
  apply map_eq. intros name. rewrite lookup_fmap, lookup_omap.
  destruct (Routers maps !! name) as [[r|]|] eqn:Hname; cbn; try done.
  by destruct (Hall name None Hname).
Qed.

Lemma fragment_of_None maps :
  fragment_of maps = None ↔ ∃ name, Routers maps !! name = Some None.
Proof.
  unfold fragment_of.
  destruct (decide (map_Forall (λ _ v, is_Some v) (Routers maps)))
    as [Hall|Hnot].
  - split; [done|]. intros [name Hname]. by destruct (Hall name None Hname).
  - split; [|done]. intros _.
    apply map_not_Forall in Hnot; [|apply _].
    destruct Hnot as (name & [r|] & Hname & Hv).
    + destruct Hv. by eexists.
    + by exists name.
Qed.

Lemma document_inj h h' : document h = document h' → h = h'.
Proof.
  intros Heq.
  assert (Hf : HTTP (document h) ≫= fragment_of =
               HTTP (document h') ≫= fragment_of) by (by rewrite Heq).
  unfold document in Hf. cbn [HTTP mbind option_bind] in Hf.
  rewrite !fragment_of_pointers in Hf. by injection Hf.
Qed.

Lemma usable_true c : usable c = true ↔ ∃ h, c = document h.
Proof.
  destruct c as [[maps|]]; unfold usable; cbn [HTTP].
  - rewrite bool_decide_eq_true. split.
    + intros Hall.
      assert (Hf : is_Some (fragment_of maps)).
      { unfold fragment_of. rewrite decide_True by done. by eexists. }
      destruct Hf as [h Hh]. exists h. unfold document.
      by rewrite (fragment_of_Some maps h Hh).
    + intros [h [= ->]]. apply pointers_all_Some.
  - split; [done|]. by intros [h [=]].
Qed.

Lemma usable_false c : usable c = false ↔ unusable c.
Proof.
  destruct c as [[maps|]]; unfold usable, unusable; cbn [HTTP].
  - rewrite bool_decide_eq_false. split.
    + intros Hnot. right.
      apply map_not_Forall in Hnot; [|apply _].
    destruct Hnot as (name & [r|] & Hname & Hv).
      * destruct Hv. by eexists.
      * by exists maps, name.
    + intros [[=]|(maps' & name & [= <-] & Hname)] Hall.
      by destruct (Hall name None Hname).
  - split; [by left | done].
Qed.

(** A decoded document is the document of a fragment, or unusable. *)
Lemma document_or_unusable c : (∃ h, c = document h) ∨ unusable c.
Proof.
  destruct (usable c) eqn:Hc.
  - left. by apply usable_true.
  - right. by apply usable_false.
Qed.

Lemma document_not_unusable h : ¬ unusable (document h).
Proof.
  intros Hun%usable_false.
  assert (Ht : usable (document h) = true) by (apply usable_true; by eexists).
  congruence.
Qed.

Section Evaluated.
Variable json_Unmarshal : string → option (Configuration Svc Mw).
Implicit Types (w : pass Svc Mw) (endpoints : gmap string endpoint).

Lemma fragments_only_true w endpoints :
  fragments_only json_Unmarshal w endpoints = true ↔
  ∀ node e, endpoints !! node = Some e →
            match fetch json_Unmarshal (http_Get w) e with
            | Some c => usable c = true
            | None => True
            end.
Proof.
  unfold fragments_only.
  rewrite <- Is_true_true, forallb_True, Forall_forall. split.
  - intros Hall node e He%elem_of_map_to_list.
    specialize (Hall (node, e) He). cbn [snd] in Hall.
    destruct (fetch json_Unmarshal (http_Get w) e); [|done].
    by apply Is_true_true.
  - intros Hall [node e] He%elem_of_map_to_list. cbn [snd].
    specialize (Hall node e He).
    destruct (fetch json_Unmarshal (http_Get w) e); [|done].
    by apply Is_true_true.
Qed.

Lemma hands_fragments_iff w endpoints :
  hands_fragments json_Unmarshal w endpoints ↔
  fragments_only json_Unmarshal w endpoints = true.
Proof.
  rewrite fragments_only_true. unfold hands_fragments. split.
  - intros Hall node e He.
    destruct (fetch json_Unmarshal (http_Get w) e) as [c|] eqn:Hf; [|done].
    apply usable_true.
    apply fetch_Some in Hf as (status & bytes & Hget & Hdec).
    by apply (Hall node e status bytes c).
  - intros Hall node e status bytes c He Hget Hdec.
    apply usable_true. specialize (Hall node e He).
    assert (Hf : fetch json_Unmarshal (http_Get w) e = Some c).
    { apply fetch_Some. by exists status, bytes. }
    by rewrite Hf in Hall.
Qed.

Lemma serves_unusable_iff w endpoints :
  serves_unusable json_Unmarshal w endpoints ↔
  fragments_only json_Unmarshal w endpoints = false.
Proof.
  rewrite <- not_true_iff_false. split.
  - intros (node & e & status & bytes & c & He & Hget & Hdec & Hun) Hall.
    rewrite fragments_only_true in Hall. specialize (Hall node e He).
    assert (Hf : fetch json_Unmarshal (http_Get w) e = Some c).
    { apply fetch_Some. by exists status, bytes. }
    rewrite Hf in Hall. apply usable_false in Hun. congruence.
  - unfold fragments_only.
    rewrite <- Is_true_true, forallb_True. intros Hnot.
    apply not_Forall_Exists in Hnot; [|apply _].
    apply Exists_exists in Hnot as ([node e] & He%elem_of_map_to_list & Hc).
    cbn [snd compose] in Hc.
    destruct (fetch json_Unmarshal (http_Get w) e) as [c|] eqn:Hf;
      [|by destruct Hc].
    apply fetch_Some in Hf as (status & bytes & Hget & Hdec).
    exists node, e, status, bytes, c. split_and!; try done.
    apply usable_false. by destruct (usable c); [destruct Hc|].
Qed.

(** On a pass, either every decoded body is a fragment, or some
    endpoint serves an unusable document. *)
Lemma fragments_or_unusable w endpoints :
  hands_fragments json_Unmarshal w endpoints ∨
  serves_unusable json_Unmarshal w endpoints.
Proof.
  destruct (fragments_only json_Unmarshal w endpoints) eqn:Hall.
  - left. by apply hands_fragments_iff.
  - right. by apply serves_unusable_iff.
Qed.
End Evaluated.
End Usable.

(* ===================================================================== *)
(** * What a pass sends                                                   *)
(* ===================================================================== *)

Section CycleMore.
Context {Svc Mw : Type}.
Variable json_Unmarshal : string → option (Configuration Svc Mw).
Variable transform : Configuration Svc Mw → outcome (Configuration Svc Mw).
(** What the policy does to the fragment of a document that has one. *)
Variable f : HTTPConfiguration Svc Mw → HTTPConfiguration Svc Mw.
Hypothesis transform_document :
  ∀ h, transform (document h) = Ok (document (f h)).
Hypothesis transform_unusable :
  ∀ c, unusable c → transform c = Panic nil_dereference.
Implicit Types (w : pass Svc Mw) (endpoints : gmap string endpoint).

Lemma transform_Panic c msg : transform c = Panic msg → msg = nil_dereference.
Proof.
  destruct (document_or_unusable c) as [[h ->]|Hun].
  - by rewrite transform_document.
  - rewrite (transform_unusable c Hun). by intros [= <-].
Qed.

Lemma poll_Panic_nil get visit configs msg :
  poll json_Unmarshal transform get visit configs = Panic msg →
  msg = nil_dereference.
Proof.
  revert configs. induction visit as [|[node e] visit IH]; intros configs;
    cbn [poll]; [done|].
  destruct (fetch json_Unmarshal get e) as [c|]; [|apply IH].
  destruct (transform c) as [c'|msg'] eqn:Hc; cbn [obind]; [apply IH|].
  intros [= <-]. by eapply transform_Panic.
Qed.

(** One unusable document takes the tick down, before the merge and the
    send. *)
Lemma tick_panics_nil endpoints w :
  fair w → serves_unusable json_Unmarshal w endpoints →
  tick json_Unmarshal transform endpoints w = Panic nil_dereference.
Proof.
  intros [Hev _] (node & e & status & bytes & c & He & Hget & Hdec & Hun).
  destruct (poll_panics json_Unmarshal transform (http_Get w)
              (endpoints_visit w endpoints) ∅ node e c nil_dereference)
    as [msg Hmsg].
  - by apply (range_order_elem endpoints).
  - apply fetch_Some. by exists status, bytes.
  - by apply transform_unusable.
  - unfold tick. rewrite Hmsg. cbn [obind]. f_equal.
    by eapply poll_Panic_nil.
Qed.

(** What [configs] holds at the end of the loop over the endpoints are the
    transformed fragments of the endpoints that handed one over. *)
Lemma collected_document endpoints w h' :
  hands_fragments json_Unmarshal w endpoints →
  (∃ node, collected json_Unmarshal transform (http_Get w) endpoints !! node =
             Some (document h')) ↔
  ∃ node e h, endpoints !! node = Some e ∧
              received json_Unmarshal w e h ∧ h' = f h.
Proof.
  intros Hfrag. unfold collected, received. split.
  - intros [node Hnode]. rewrite lookup_omap in Hnode.
    destruct (endpoints !! node) as [e|] eqn:He; [|done].
    cbn [mbind option_bind] in Hnode.
    destruct (fetch json_Unmarshal (http_Get w) e) as [c|] eqn:Hf; [|done].
    apply fetch_Some in Hf as (status & bytes & Hget & Hdec).
    destruct (Hfrag node e status bytes c He Hget Hdec) as [h ->].
    rewrite transform_document in Hnode.
    exists node, e, h. split_and!; [done | by exists status, bytes |].
    apply document_inj. congruence.
  - intros (node & e & h & He & (status & bytes & Hget & Hdec) & ->).
    exists node. rewrite lookup_omap, He. cbn [mbind option_bind].
    assert (Hf : fetch json_Unmarshal (http_Get w) e = Some (document h)).
    { apply fetch_Some. by exists status, bytes. }
    by rewrite Hf, transform_document.
Qed.

(** A pass on which every decoded body is a fragment sends one payload:
    the merge of the transformed fragments of exactly the endpoints that
    handed one over. *)
Lemma tick_merges endpoints w :
  fair w → hands_fragments json_Unmarshal w endpoints →
  ∃ frags,
    (∀ h', h' ∈ frags ↔
           ∃ node e h, endpoints !! node = Some e ∧
                       received json_Unmarshal w e h ∧ h' = f h) ∧
    tick json_Unmarshal transform endpoints w =
      Ok {| PayloadConfiguration :=
              Some (document (foldl merge_into emptyHTTP frags)) |}.
Proof.
  intros Hfair Hfrag.
  destruct (tick_sends json_Unmarshal transform endpoints w Hfair)
    as (frags & Hfrags & Htick).
  { intros node e c He (status & bytes & Hget & Hdec)%fetch_Some.
    destruct (Hfrag node e status bytes c He Hget Hdec) as [h ->].
    exists (f h). apply transform_document. }
  exists frags. split; [|done].
  intros h'. rewrite <- collected_document by done.
  destruct Hfair as [_ Hcv].
  specialize (Hcv (collected json_Unmarshal transform (http_Get w) endpoints)).
  split.
  - intros Hh'.
    assert (Hd : document h' ∈ document <$> frags)
      by by apply list_elem_of_fmap_2.
    rewrite <- Hfrags in Hd.
    apply list_elem_of_fmap in Hd as ([node c] & Hc & Hd). cbn [snd] in Hc.
    subst c. exists node. by apply (range_order_elem _ _ _ _ Hcv).
  - intros [node Hnode].
    apply (range_order_elem _ _ _ _ Hcv) in Hnode.
    assert (Hd : document h' ∈ document <$> frags).
    { rewrite <- Hfrags. apply list_elem_of_fmap.
      by exists (node, document h'). }
    apply list_elem_of_fmap in Hd as (h'' & Heq & Hd).
    by rewrite (document_inj _ _ Heq).
Qed.

(** The entries of the payload, collection by collection. *)
Lemma tick_comes_from endpoints w :
  fair w → hands_fragments json_Unmarshal w endpoints →
  ∃ merged,
    tick json_Unmarshal transform endpoints w =
      Ok {| PayloadConfiguration := Some (document merged) |} ∧
    comes_from json_Unmarshal w endpoints f Routers merged ∧
    comes_from json_Unmarshal w endpoints f Services merged ∧
    comes_from json_Unmarshal w endpoints f HTTPMiddlewares merged.
Proof.
  intros Hfair Hfrag.
  destruct (tick_merges endpoints w Hfair Hfrag) as (frags & Hin & Htick).
  exists (foldl merge_into emptyHTTP frags). split; [done|].
  assert (Hgen : ∀ {V} (proj : HTTPConfiguration Svc Mw → gmap string V),
            (∀ name, proj (foldl merge_into emptyHTTP frags) !! name =
                     earliest proj frags name) →
            comes_from json_Unmarshal w endpoints f proj
                       (foldl merge_into emptyHTTP frags)).
  { intros V proj Hlook name. rewrite Hlook. split.
    - intros v (h' & Hh' & Hv)%earliest_elem.
      apply Hin in Hh' as (node & e & h & He & Hf & ->). by exists node, e, h.
    - intros (node & e & h & He & Hf & Hsome).
      apply (earliest_defined proj frags name (f h)); [|done].
      apply Hin. by exists node, e, h. }
  split_and!; apply Hgen; intros name.
  - by rewrite (merged_lookup Routers) by (done || apply merge_into_Routers).
  - by rewrite (merged_lookup Services) by (done || apply merge_into_Services).
  - by rewrite (merged_lookup HTTPMiddlewares)
      by (done || apply merge_into_Middlewares).
Qed.

(** A run of ticks that all get through sends their payloads one by one. *)
Lemma run_ticks endpoints (ws : list (pass Svc Mw)) sent :
  (∀ w, w ∈ ws → is_Some (match tick json_Unmarshal transform endpoints w with
                          | Ok payload => Some payload
                          | Panic _ => None
                          end)) →
  ∃ payloads,
    run json_Unmarshal transform endpoints (TickerC <$> ws) sent =
      (sent ++ payloads, Selecting) ∧
    Forall2 (λ w payload,
               tick json_Unmarshal transform endpoints w = Ok payload)
            ws payloads.
Proof.
  revert sent. induction ws as [|w ws IH]; intros sent Hall.
  - exists []. by rewrite app_nil_r.
  - cbn [fmap list_fmap run].
    destruct (Hall w (list_elem_of_here _ _)) as [payload Hp].
    destruct (tick json_Unmarshal transform endpoints w) as [payload'|] eqn:Hw;
      [|done].
    destruct (IH (sent ++ [payload'])) as (payloads & Hrun & Hall').
    { intros w' Hw'. apply Hall. by apply list_elem_of_further. }
    exists (payload' :: payloads). rewrite Hrun, <- app_assoc.
    split; [done|]. by constructor.
Qed.
End CycleMore.

Section Passes.
Context {Svc Mw : Type}.
Variable json_Unmarshal : string → option (Configuration Svc Mw).
Implicit Types (pf : Filtering.Provider) (pr : Rewriting.Provider)
               (w : pass Svc Mw).

Lemma Filtering_transform_document recognized (h : HTTPConfiguration Svc Mw) :
  Filtering.transform recognized (document h) =
    Ok (document (Filtering.filter_fragment recognized h)).
Proof.
  unfold Filtering.transform, document. cbn [HTTP].
  by rewrite fragment_of_pointers.
Qed.

Lemma Filtering_transform_unusable recognized (c : Configuration Svc Mw) :
  unusable c → Filtering.transform recognized c = Panic nil_dereference.
Proof.
  unfold Filtering.transform.
  intros [->|(maps & name & -> & Hname)]; [done|].
  assert (Hnone : fragment_of maps = None)
    by (apply fragment_of_None; by exists name).
  by rewrite Hnone.
Qed.

Lemma Rewriting_transform_document (h : HTTPConfiguration Svc Mw) :
  Rewriting.transform (document h) =
    Ok (document (Rewriting.rewrite_fragment h)).
Proof.
  unfold Rewriting.transform, document. cbn [HTTP].
  by rewrite fragment_of_pointers.
Qed.

Lemma Rewriting_transform_unusable (c : Configuration Svc Mw) :
  unusable c → Rewriting.transform c = Panic nil_dereference.
Proof.
  unfold Rewriting.transform.
  intros [->|(maps & name & -> & Hname)]; [done|].
  assert (Hnone : fragment_of maps = None)
    by (apply fragment_of_None; by exists name).
  by rewrite Hnone.
Qed.

(** With an interval above zero the ticker is made and the loop runs. *)
Lemma Filtering_loadConfiguration_run pf events :
  0 < Filtering.pollInterval pf →
  Filtering.loadConfiguration json_Unmarshal pf events =
    run json_Unmarshal (Filtering.transform (Filtering.entrypoints pf))
        (Filtering.endpoints pf) events [].
Proof.
  intros Hpos. unfold Filtering.loadConfiguration.
  by rewrite bool_decide_eq_false_2 by lia.
Qed.

Lemma Rewriting_loadConfiguration_run pr events :
  0 < Rewriting.pollInterval pr →
  Rewriting.loadConfiguration json_Unmarshal pr events =
    run json_Unmarshal Rewriting.transform (Rewriting.endpoints pr) events [].
Proof.
  intros Hpos. unfold Rewriting.loadConfiguration.
  by rewrite bool_decide_eq_false_2 by lia.
Qed.

(** Filtering variant: a tick on which every decoded body is a fragment
    sends exactly one payload, whatever else each endpoint did, and the
    loop goes back to waiting. *)
Lemma Filtering_pass_sends pf w :
  fair w → 0 < Filtering.pollInterval pf →
  hands_fragments json_Unmarshal w (Filtering.endpoints pf) →
  ∃ frags,
    (∀ h', h' ∈ frags ↔
           ∃ node e h,
             Filtering.endpoints pf !! node = Some e ∧
             received json_Unmarshal w e h ∧
             h' = Filtering.filter_fragment (Filtering.entrypoints pf) h) ∧
    Filtering.loadConfiguration json_Unmarshal pf [TickerC w] =
      ([{| PayloadConfiguration :=
             Some (document (foldl merge_into emptyHTTP frags)) |}], Selecting).
Proof.
  intros Hfair Hpos Hfrag.
  destruct (tick_merges json_Unmarshal
              (Filtering.transform (Filtering.entrypoints pf))
              (Filtering.filter_fragment (Filtering.entrypoints pf))
              (Filtering_transform_document (Filtering.entrypoints pf))
              (Filtering.endpoints pf) w Hfair Hfrag)
    as (frags & Hin & Htick).
  exists frags. split; [done|].
  rewrite Filtering_loadConfiguration_run by done. cbn [run].
  by rewrite Htick.
Qed.

(** Rewriting variant: the same. *)
Lemma Rewriting_pass_sends pr w :
  fair w → 0 < Rewriting.pollInterval pr →
  hands_fragments json_Unmarshal w (Rewriting.endpoints pr) →
  ∃ frags,
    (∀ h', h' ∈ frags ↔
           ∃ node e h,
             Rewriting.endpoints pr !! node = Some e ∧
             received json_Unmarshal w e h ∧
             h' = Rewriting.rewrite_fragment h) ∧
    Rewriting.loadConfiguration json_Unmarshal pr [TickerC w] =
      ([{| PayloadConfiguration :=
             Some (document (foldl merge_into emptyHTTP frags)) |}], Selecting).
Proof.
  intros Hfair Hpos Hfrag.
  destruct (tick_merges json_Unmarshal Rewriting.transform
              Rewriting.rewrite_fragment Rewriting_transform_document
              (Rewriting.endpoints pr) w Hfair Hfrag)
    as (frags & Hin & Htick).
  exists frags. split; [done|].
  rewrite Rewriting_loadConfiguration_run by done. cbn [run].
  by rewrite Htick.
Qed.

(** Two runs whose first ticks differ in status codes only end alike. *)
Lemma Filtering_status_blind pf w w' rest :
  differ_in_status w w' →
  Filtering.loadConfiguration json_Unmarshal pf (TickerC w :: rest) =
  Filtering.loadConfiguration json_Unmarshal pf (TickerC w' :: rest).
Proof.
  intros (Hsame & Hev & Hcv). unfold Filtering.loadConfiguration.
  destruct (bool_decide (Filtering.pollInterval pf ≤ 0)); [done|].
  cbn [run]. by rewrite (tick_same_but_status _ _ _ w w' Hsame Hev Hcv).
Qed.

Lemma Rewriting_status_blind pr w w' rest :
  differ_in_status w w' →
  Rewriting.loadConfiguration json_Unmarshal pr (TickerC w :: rest) =
  Rewriting.loadConfiguration json_Unmarshal pr (TickerC w' :: rest).
Proof.
  intros (Hsame & Hev & Hcv). unfold Rewriting.loadConfiguration.
  destruct (bool_decide (Rewriting.pollInterval pr ≤ 0)); [done|].
  cbn [run]. by rewrite (tick_same_but_status _ _ _ w w' Hsame Hev Hcv).
Qed.
End Passes.

(** The sample passes range over the maps in the order of their lists. *)
Lemma pass_with_fair get : fair (pass_with get).
Proof. split; intros m; unfold range_order; reflexivity. Qed.

(** The sample of the specification: one endpoint serves a document, the
    other refuses the connection; one payload goes out and holds what is left
    of the first endpoint's document.  With nobody answering, the payload
    holds three empty maps. *)
Example one_down_is_tolerated :
  Filtering.loadConfiguration sample_Unmarshal filtering_provider [TickerC one_down] =
    ([{| PayloadConfiguration :=
           Some (document (Filtering.filter_fragment web_only mixed)) |}],
     Selecting) ∧
  Filtering.loadConfiguration sample_Unmarshal filtering_provider
      [TickerC all_down; CtxDone] =
    ([{| PayloadConfiguration := Some (document emptyHTTP) |}], Returned) ∧
  Rewriting.loadConfiguration sample_Unmarshal rewriting_provider
      [TickerC all_down; CtxDone] =
    ([{| PayloadConfiguration := Some (document emptyHTTP) |}], Returned).
Proof. vm_compute. repeat split. Qed.

(** C5, at the input where the code departs from it.  [server1] serves a
    document and [server2] answers with the empty JSON object, which decodes
    without error to a configuration whose [HTTP] pointer is nil.  The policy
    dereferences that pointer: the tick panics, nothing is sent, and the loop
    is gone, so the next tick, on which [server2] is merely unreachable, sends
    nothing either.  Both variants. *)
Theorem empty_object_stops_polling :
  fetch sample_Unmarshal (http_Get one_empty_object)
        {| endpoint_address := "192.168.0.3";
           headers := {[ "X-Custom-Header" := "value" ]} |} =
    Some {| HTTP := None |} ∧
  Filtering.loadConfiguration sample_Unmarshal filtering_provider
      [TickerC one_empty_object; TickerC one_down] =
    ([], Panicked nil_dereference) ∧
  Rewriting.loadConfiguration sample_Unmarshal rewriting_provider
      [TickerC one_empty_object; TickerC one_down] =
    ([], Panicked nil_dereference).
Proof. vm_compute. repeat split. Qed.

(** C6 as stated fails: [server1] answers 500 with a body that decodes, and
    the routers of that body are in the payload of the tick. *)
Lemma internal_error_is_merged :
  http_Get one_internal_error "http://10.0.1.2:5000/traefik/config" =
    Response 500 (ReadAll body_of_mixed) ∧
  fetch sample_Unmarshal (http_Get one_internal_error)
        {| endpoint_address := "10.0.1.2"; headers := ∅ |} =
    Some (document mixed) ∧
  ∃ merged,
    Filtering.loadConfiguration sample_Unmarshal filtering_provider
        [TickerC one_internal_error] =
      ([{| PayloadConfiguration := Some (document merged) |}], Selecting) ∧
    EntryPoints <$> Routers merged !! "app" = Some ["web"].
Proof.
  split; [by vm_compute|]. split; [by vm_compute|].
  exists (Filtering.filter_fragment web_only mixed).
  split; by vm_compute.
Qed.

(** C6, amended.  The status code of a response plays no part: a run whose
    first tick meets a network that differs from another in status codes
    only ends as the other does, payloads and panic alike.  And on a tick on
    which every body that is received and decoded is a fragment, one payload
    is sent, whose configuration is the merge of the transformed fragments of
    exactly the endpoints whose request returned a response, of whatever
    status, with a body that was read and decoded.  Both variants. *)
Theorem status_is_never_inspected {Svc Mw : Type}
    (json_Unmarshal : string → option (Configuration Svc Mw))
    (pf : Filtering.Provider) (pr : Rewriting.Provider) (w : pass Svc Mw) :
  (∀ w' rest, differ_in_status w w' →
     Filtering.loadConfiguration json_Unmarshal pf (TickerC w :: rest) =
     Filtering.loadConfiguration json_Unmarshal pf (TickerC w' :: rest) ∧
     Rewriting.loadConfiguration json_Unmarshal pr (TickerC w :: rest) =
     Rewriting.loadConfiguration json_Unmarshal pr (TickerC w' :: rest)) ∧
  (fair w → 0 < Filtering.pollInterval pf →
   hands_fragments json_Unmarshal w (Filtering.endpoints pf) →
   ∃ frags config,
     (∀ h', h' ∈ frags ↔
            ∃ node e h,
              Filtering.endpoints pf !! node = Some e ∧
              received json_Unmarshal w e h ∧
              h' = Filtering.filter_fragment (Filtering.entrypoints pf) h) ∧
     mergeConfig (document <$> frags) = Ok config ∧
     Filtering.loadConfiguration json_Unmarshal pf [TickerC w] =
       ([{| PayloadConfiguration := Some config |}], Selecting)) ∧
  (fair w → 0 < Rewriting.pollInterval pr →
   hands_fragments json_Unmarshal w (Rewriting.endpoints pr) →
   ∃ frags config,
     (∀ h', h' ∈ frags ↔
            ∃ node e h,
              Rewriting.endpoints pr !! node = Some e ∧
              received json_Unmarshal w e h ∧
              h' = Rewriting.rewrite_fragment h) ∧
     mergeConfig (document <$> frags) = Ok config ∧
     Rewriting.loadConfiguration json_Unmarshal pr [TickerC w] =
       ([{| PayloadConfiguration := Some config |}], Selecting)).
Proof.
  split_and!.
  - intros w' rest Hdiff. split.
    + by apply Filtering_status_blind.
    + by apply Rewriting_status_blind.
  - intros Hfair Hpos Hfrag.
    destruct (Filtering_pass_sends json_Unmarshal pf w Hfair Hpos Hfrag)
      as (frags & Hin & Hsent).
    exists frags, (document (foldl merge_into emptyHTTP frags)).
    split_and!; [done | apply mergeConfig_documents | done].
  - intros Hfair Hpos Hfrag.
    destruct (Rewriting_pass_sends json_Unmarshal pr w Hfair Hpos Hfrag)
      as (frags & Hin & Hsent).
    exists frags, (document (foldl merge_into emptyHTTP frags)).
    split_and!; [done | apply mergeConfig_documents | done].
Qed.

(** On [both_up] the response of [server2] has status 404 and a body that
    decodes. *)
Lemma status_is_never_inspected_witness :
  differ_in_status both_up both_up_200 ∧
  fair both_up ∧
  0 < Filtering.pollInterval filtering_provider ∧
  0 < Rewriting.pollInterval rewriting_provider ∧
  hands_fragments sample_Unmarshal both_up two_endpoints ∧
  (Filtering.loadConfiguration sample_Unmarshal filtering_provider
       (TickerC both_up :: [CtxDone]) =
   Filtering.loadConfiguration sample_Unmarshal filtering_provider
       (TickerC both_up_200 :: [CtxDone]) ∧
   Rewriting.loadConfiguration sample_Unmarshal rewriting_provider
       (TickerC both_up :: [CtxDone]) =
   Rewriting.loadConfiguration sample_Unmarshal rewriting_provider
       (TickerC both_up_200 :: [CtxDone])) ∧
  (∃ frags config,
     (∀ h', h' ∈ frags ↔
            ∃ node e h,
              Filtering.endpoints filtering_provider !! node = Some e ∧
              received sample_Unmarshal both_up e h ∧
              h' = Filtering.filter_fragment
                     (Filtering.entrypoints filtering_provider) h) ∧
     mergeConfig (document <$> frags) = Ok config ∧
     Filtering.loadConfiguration sample_Unmarshal filtering_provider
         [TickerC both_up] =
       ([{| PayloadConfiguration := Some config |}], Selecting)) ∧
  (∃ frags config,
     (∀ h', h' ∈ frags ↔
            ∃ node e h,
              Rewriting.endpoints rewriting_provider !! node = Some e ∧
              received sample_Unmarshal both_up e h ∧
              h' = Rewriting.rewrite_fragment h) ∧
     mergeConfig (document <$> frags) = Ok config ∧
     Rewriting.loadConfiguration sample_Unmarshal rewriting_provider
         [TickerC both_up] =
       ([{| PayloadConfiguration := Some config |}], Selecting)).
Proof.
  assert (Hdiff : differ_in_status both_up both_up_200).
  { split_and!; [|reflexivity..].
    intros url. unfold both_up, both_up_200, pass_with, network.
    cbn [http_Get]. by repeat case_decide. }
  assert (Hfair : fair both_up) by apply pass_with_fair.
  assert (Hpf : 0 < Filtering.pollInterval filtering_provider) by (vm_compute; reflexivity).
  assert (Hpr : 0 < Rewriting.pollInterval rewriting_provider) by (vm_compute; reflexivity).
  assert (Hfrag : hands_fragments sample_Unmarshal both_up two_endpoints).
  { apply hands_fragments_iff. vm_compute. reflexivity. }
  destruct (status_is_never_inspected sample_Unmarshal filtering_provider
              rewriting_provider both_up) as (Hblind & Hf & Hr).
  split; [exact Hdiff|]. split; [exact Hfair|]. split; [exact Hpf|].
  split; [exact Hpr|]. split; [exact Hfrag|].
  split; [exact (Hblind both_up_200 [CtxDone] Hdiff)|].
  split; [exact (Hf Hfair Hpf Hfrag) | exact (Hr Hfair Hpr Hfrag)].
Defined.

(* ===================================================================== *)
(** * More on [mergeConfig]                                               *)
(* ===================================================================== *)

Section MergeMore.
Context {Svc Mw : Type}.
Implicit Types (h acc : HTTPConfiguration Svc Mw)
               (frags : list (HTTPConfiguration Svc Mw))
               (configs : list (Configuration Svc Mw)).

Lemma merge_loop_nil configs (acc : HTTPMaps Svc Mw (option Router)) c :
  c ∈ configs → HTTP c = None → merge_loop acc configs = Panic nil_dereference.
Proof.
  revert acc. induction configs as [|c' configs IH]; intros acc Hin Hc.
  - by apply elem_of_nil in Hin.
  - cbn [merge_loop]. destruct (HTTP c') as [h'|] eqn:Hc'; [|done].
    apply elem_of_cons in Hin as [->|Hin]; [congruence | by apply IH].
Qed.

Lemma merge_loop_Ok configs (acc : HTTPMaps Svc Mw (option Router)) merged :
  merge_loop acc configs = Ok merged → ∀ c, c ∈ configs → is_Some (HTTP c).
Proof.
  revert acc. induction configs as [|c' configs IH]; intros acc Hloop c Hin.
  - by apply elem_of_nil in Hin.
  - cbn [merge_loop] in Hloop. destruct (HTTP c') as [h'|] eqn:Hc'; [|done].
    apply elem_of_cons in Hin as [->|Hin]; [by rewrite Hc' | by eapply IH].
Qed.

Lemma merge_loop_Panic configs (acc : HTTPMaps Svc Mw (option Router)) msg :
  merge_loop acc configs = Panic msg →
  msg = nil_dereference ∧ ∃ c, c ∈ configs ∧ HTTP c = None.
Proof.
  revert acc. induction configs as [|c' configs IH]; intros acc Hloop; [done|].
  cbn [merge_loop] in Hloop. destruct (HTTP c') as [h'|] eqn:Hc'.
  - destruct (IH _ Hloop) as (-> & c & Hin & Hc). split; [done|].
    exists c. split; [by apply list_elem_of_further | done].
  - injection Hloop as <-. split; [done|].
    exists c'. split; [apply list_elem_of_here | done].
Qed.

(** X1. [mergeConfig] on its own: it returns a configuration, whose [HTTP]
    pointer is never nil, exactly when every configuration it is given has
    an [HTTP] member; one configuration without it makes the call panic
    with a nil dereference, wherever it stands in the sequence. *)
Theorem mergeConfig_needs_http configs :
  match mergeConfig configs with
  | Ok merged =>
      (∀ c, c ∈ configs → is_Some (HTTP c)) ∧ is_Some (HTTP merged)
  | Panic msg =>
      msg = nil_dereference ∧ ∃ c, c ∈ configs ∧ HTTP c = None
  end.
Proof.
  unfold mergeConfig.
  destruct (merge_loop emptyHTTP configs) as [merged|msg] eqn:Hloop; cbn [obind].
  - split; [by eapply merge_loop_Ok | by eexists].
  - by apply merge_loop_Panic in Hloop.
Qed.

(** X2. One inner loop of [mergeConfig] computes the union that prefers
    what the destination already holds, in whatever order the source map
    is ranged over. *)
Theorem range_put_union {V} (src dst : gmap string V) visit :
  range_order src visit → range_put dst visit = dst ∪ src.
Proof.
  intros Hv. apply map_eq. intros name.
  rewrite range_put_lookup, (range_order_to_map src visit Hv), lookup_union.
  by destruct (dst !! name), (src !! name).
Qed.

Lemma agree_Permutation {V} (proj : HTTPConfiguration Svc Mw → gmap string V)
    frags frags' :
  frags ≡ₚ frags' → agree proj frags → agree proj frags'.
Proof.
  intros Hperm Hagree h1 h2 name v1 v2 H1 H2.
  apply (Hagree h1 h2); by rewrite Hperm.
Qed.

Lemma earliest_agree {V} (proj : HTTPConfiguration Svc Mw → gmap string V)
    frags name v :
  agree proj frags →
  earliest proj frags name = Some v ↔ ∃ h, h ∈ frags ∧ proj h !! name = Some v.
Proof.
  intros Hagree. split; [apply earliest_elem|].
  intros (h & Hin & Hv).
  destruct (earliest_defined proj frags name h Hin) as [v' Hv']; [by eexists|].
  destruct (earliest_elem proj frags name v' Hv') as (h' & Hin' & Hh').
  by rewrite Hv', (Hagree h' h name v' v Hin' Hin Hh' Hv).
Qed.

Lemma earliest_Permutation {V} (proj : HTTPConfiguration Svc Mw → gmap string V)
    frags frags' name :
  frags ≡ₚ frags' → agree proj frags →
  earliest proj frags name = earliest proj frags' name.
Proof.
  intros Hperm Hagree.
  pose proof (agree_Permutation proj frags frags' Hperm Hagree) as Hagree'.
  apply option_eq. intros v.
  rewrite !earliest_agree by done.
  split; intros (h & Hin & Hv); exists h; (split; [|done]).
  - by rewrite <- Hperm.
  - by rewrite Hperm.
Qed.

Lemma HTTPConfiguration_eq h h' :
  Routers h = Routers h' → Services h = Services h' →
  HTTPMiddlewares h = HTTPMiddlewares h' → h = h'.
Proof. destruct h, h'; cbn. by intros -> -> ->. Qed.

(** X3. The order in which [configs] is ranged over matters for colliding
    names only: when the fragments agree on every name that two of them
    define, any two orders give the same merged configuration. *)
Theorem mergeConfig_order_irrelevant frags frags' :
  frags ≡ₚ frags' →
  agree Routers frags → agree Services frags → agree HTTPMiddlewares frags →
  mergeConfig (document <$> frags) = mergeConfig (document <$> frags').
Proof.
  intros Hperm Hr Hs Hm. rewrite !mergeConfig_documents. do 2 f_equal.
  apply HTTPConfiguration_eq; apply map_eq; intros name.
  - rewrite !(merged_lookup Routers) by (done || apply merge_into_Routers).
    by apply earliest_Permutation.
  - rewrite !(merged_lookup Services) by (done || apply merge_into_Services).
    by apply earliest_Permutation.
  - rewrite !(merged_lookup HTTPMiddlewares)
      by (done || apply merge_into_Middlewares).
    by apply earliest_Permutation.
Qed.
End MergeMore.

Lemma range_put_union_witness :
  range_order (Services nodeB) (map_to_list (Services nodeB)) ∧
  range_put (Services nodeA) (map_to_list (Services nodeB)) =
    Services nodeA ∪ Services nodeB.
Proof.
  assert (Hv : range_order (Services nodeB) (map_to_list (Services nodeB))).
  { unfold range_order. reflexivity. }
  split; [exact Hv|].
  exact (range_put_union (Services nodeB) (Services nodeA) _ Hv).
Defined.

Lemma mergeConfig_order_irrelevant_witness :
  [nodeA; nodeC] ≡ₚ [nodeC; nodeA] ∧
  agree Routers [nodeA; nodeC] ∧ agree Services [nodeA; nodeC] ∧
  agree HTTPMiddlewares [nodeA; nodeC] ∧
  mergeConfig (document <$> [nodeA; nodeC]) =
  mergeConfig (document <$> [nodeC; nodeA]).
Proof.
  assert (Hperm : [nodeA; nodeC] ≡ₚ [nodeC; nodeA]) by apply perm_swap.
  assert (Hagree : ∀ {V} (proj : HTTPConfiguration string string → gmap string V),
            (∀ name, proj nodeA !! name = None ∨ proj nodeC !! name = None) →
            agree proj [nodeA; nodeC]).
  { intros V proj Hdisj h1 h2 name v1 v2 H1 H2 L1 L2.
    apply elem_of_cons in H1 as [->|H1]; apply elem_of_cons in H2 as [->|H2];
      try apply list_elem_of_singleton in H1 as ->;
      try apply list_elem_of_singleton in H2 as ->;
      try congruence;
      destruct (Hdisj name) as [Hn|Hn]; congruence. }
  assert (Hone : ∀ {V} (k k' : string) (x y : V) name, k ≠ k' →
            ({[ k := x ]} : gmap string V) !! name = None ∨
            ({[ k' := y ]} : gmap string V) !! name = None).
  { intros V k k' x y name Hne. destruct (decide (k = name)) as [<-|Hk].
    - right. by apply lookup_singleton_ne.
    - left. by apply lookup_singleton_ne. }
  assert (Hr : agree Routers [nodeA; nodeC]).
  { apply Hagree. intros name. by apply Hone. }
  assert (Hs : agree Services [nodeA; nodeC]).
  { apply Hagree. intros name. by apply Hone. }
  assert (Hm : agree HTTPMiddlewares [nodeA; nodeC]).
  { apply Hagree. intros name. by apply Hone. }
  split_and!; [exact Hperm | exact Hr | exact Hs | exact Hm |].
  exact (mergeConfig_order_irrelevant [nodeA; nodeC] [nodeC; nodeA] Hperm Hr Hs Hm).
Defined.

(* ===================================================================== *)
(** * More on the filter of provider.go                                   *)
(* ===================================================================== *)

Section FilterMore.
Import Filtering.
Context {Svc Mw : Type}.
Variable recognized : gmap string bool.
Implicit Types (h : HTTPConfiguration Svc Mw) (visit : list (string * Router)).

Lemma filter_Routers_closed visit h k :
  range_order (Routers h) visit →
  Routers (filter_in recognized visit h) !! k =
    match Routers h !! k with
    | Some r =>
        if decide (survives recognized r)
        then Some (set_EntryPoints r (keep_recognized recognized (EntryPoints r)))
        else None
    | None => None
    end.
Proof.
  intros Hv. rewrite filter_in_Routers, marked_toDelete, marked_routers by done.
  destruct (Routers h !! k) as [r|]; cbn [fmap option_fmap option_map].
  - destruct (decide (survives recognized r)).
    + by rewrite decide_False by (by intros [? ?]).
    + by rewrite decide_True by (by eexists).
  - by rewrite decide_False by (by intros [? ?]).
Qed.

Lemma filter_Services_dropped visit h s k r :
  range_order (Routers h) visit →
  Routers h !! k = Some r → ¬ survives recognized r → Service r = s →
  Services (filter_in recognized visit h) !! s = None.
Proof.
  intros Hv Hk Hs <-. rewrite filter_in_Services.
  rewrite decide_True; [done|]. apply values_of_map. exists k.
  rewrite marked_toDelete, Hk by done. by rewrite decide_False.
Qed.

Lemma filter_Services_kept visit h s :
  range_order (Routers h) visit →
  (∀ k r, Routers h !! k = Some r → Service r = s → survives recognized r) →
  Services (filter_in recognized visit h) !! s = Services h !! s.
Proof.
  intros Hv Hall. rewrite filter_in_Services.
  rewrite decide_False; [done|]. intros [k Hk]%values_of_map.
  rewrite marked_toDelete in Hk by done.
  destruct (Routers h !! k) as [r|] eqn:Hr; [|done].
  destruct (decide (survives recognized r)) as [Hs|Hs]; [done|].
  injection Hk as Hk. by apply Hs, (Hall k r).
Qed.

Lemma filter_Middlewares_kept visit h m :
  range_order (Routers h) visit →
  (∀ k r, Routers h !! k = Some r → m ∈ Middlewares r →
          ∃ k' r', Routers h !! k' = Some r' ∧ m ∈ Middlewares r' ∧
                   survives recognized r') →
  HTTPMiddlewares (filter_in recognized visit h) !! m = HTTPMiddlewares h !! m.
Proof.
  intros Hv Hall. rewrite filter_in_Middlewares, marked_flag.
  destruct (decide (Exists (protects recognized m) visit)) as [Hp|Hp].
  { by rewrite decide_False. }
  destruct (decide (Exists (refers m) visit)) as [Hr|Hr].
  - exfalso. apply Hp.
    apply (Exists_range _ (Routers h) visit Hv) in Hr as (k & r & Hk & Hm).
    destruct (Hall k r Hk Hm) as (k' & r' & Hk' & Hm' & Hs').
    apply (Exists_range _ (Routers h) visit Hv). by exists k', r'.
  - by rewrite decide_False.
Qed.

Lemma keep_recognized_all eps :
  Forall (λ e, is_Some (recognized !! e)) eps →
  keep_recognized recognized eps = eps.
Proof.
  unfold keep_recognized. induction 1 as [|e eps He _ IH]; [done|].
  rewrite filter_cons, decide_True by done. by rewrite IH.
Qed.

Lemma keep_recognized_Forall eps :
  Forall (λ e, is_Some (recognized !! e)) (keep_recognized recognized eps).
Proof.
  apply Forall_forall. intros e He. by apply keep_recognized_elem in He as [_ ?].
Qed.

(** A fragment whose routers all have entry points, recognized ones only,
    goes through the filter unchanged. *)
Lemma filter_fixed visit h :
  range_order (Routers h) visit →
  (∀ k r, Routers h !! k = Some r →
          EntryPoints r ≠ [] ∧
          Forall (λ e, is_Some (recognized !! e)) (EntryPoints r)) →
  filter_in recognized visit h = h.
Proof.
  intros Hv Hall.
  assert (Hsurv : ∀ k r, Routers h !! k = Some r → survives recognized r).
  { intros k r Hk. destruct (Hall k r Hk) as [Hne Hrec].
    unfold survives. by rewrite keep_recognized_all. }
  apply HTTPConfiguration_eq; apply map_eq; intros x.
  - rewrite filter_Routers_closed by done.
    destruct (Routers h !! x) as [r|] eqn:Hx; [|done].
    rewrite decide_True by by eapply Hsurv.
    destruct (Hall x r Hx) as [_ Hrec]. rewrite keep_recognized_all by done.
    by destruct r.
  - apply filter_Services_kept; [done|]. intros k r Hk _. by eapply Hsurv.
  - apply filter_Middlewares_kept; [done|]. intros k r Hk Hm.
    exists k, r. split_and!; [done..|]. by eapply Hsurv.
Qed.

(** X4. The result of the filter does not depend on the order in which
    the routers of the fragment are ranged over. *)
Theorem filter_order_irrelevant visit visit' h :
  range_order (Routers h) visit → range_order (Routers h) visit' →
  filter_in recognized visit h = filter_in recognized visit' h.
Proof.
  intros Hv Hv'. by rewrite !filter_in_any_order.
Qed.

(** X5. What is left after the filter: every remaining router is a router
    of the input with the same middlewares, service and other fields, and
    its entry-point list is not empty and holds recognized entry points
    only. *)
Theorem filter_leaves_recognized visit h k r' :
  range_order (Routers h) visit →
  Routers (filter_in recognized visit h) !! k = Some r' →
  EntryPoints r' ≠ [] ∧
  Forall (λ e, is_Some (recognized !! e)) (EntryPoints r') ∧
  ∃ r, Routers h !! k = Some r ∧
       Middlewares r' = Middlewares r ∧ Service r' = Service r ∧
       Rule r' = Rule r ∧ sublist (EntryPoints r') (EntryPoints r).
Proof.
  intros Hv. rewrite filter_Routers_closed by done.
  destruct (Routers h !! k) as [r|]; [|done].
  destruct (decide (survives recognized r)) as [Hs|]; [|done].
  intros [= <-]. cbn [set_EntryPoints EntryPoints Middlewares Service Rule].
  split_and!; [done | apply keep_recognized_Forall |].
  exists r. split_and!; [done..|]. apply keep_recognized_sublist.
Qed.

(** X6. Services after the filter.  A service named by a removed router is
    removed, also when a surviving router names it too; every other service
    is left as it was. *)
Theorem filter_services visit h s :
  range_order (Routers h) visit →
  ((∃ k r, Routers h !! k = Some r ∧ ¬ survives recognized r ∧ Service r = s) →
   Services (filter_in recognized visit h) !! s = None) ∧
  ((∀ k r, Routers h !! k = Some r → Service r = s → survives recognized r) →
   Services (filter_in recognized visit h) !! s = Services h !! s).
Proof.
  intros Hv. split.
  - intros (k & r & Hk & Hs & Hsvc). by eapply filter_Services_dropped.
  - by apply filter_Services_kept.
Qed.

(** X7. The filter only removes: it adds no router name, and every
    service or middleware of the result is in the input with the same
    definition. *)
Theorem filter_only_removes visit h :
  range_order (Routers h) visit →
  dom (Routers (filter_in recognized visit h)) ⊆ dom (Routers h) ∧
  Services (filter_in recognized visit h) ⊆ Services h ∧
  HTTPMiddlewares (filter_in recognized visit h) ⊆ HTTPMiddlewares h.
Proof.
  intros Hv. split_and!.
  - intros k. rewrite !elem_of_dom, filter_Routers_closed by done.
    destruct (Routers h !! k); [by eexists | by intros [? ?]].
  - apply map_subseteq_spec. intros s v. rewrite filter_in_Services.
    by case_decide.
  - apply map_subseteq_spec. intros m v. rewrite filter_in_Middlewares.
    by case_decide.
Qed.

(** X8. The filter keeps middleware references resolvable: if every
    middleware listed by a router of the input is defined in the input,
    every middleware listed by a remaining router is defined in the
    result. *)
Theorem filter_keeps_middlewares_resolvable visit h :
  range_order (Routers h) visit →
  (∀ k r m, Routers h !! k = Some r → m ∈ Middlewares r →
            is_Some (HTTPMiddlewares h !! m)) →
  ∀ k r' m, Routers (filter_in recognized visit h) !! k = Some r' →
            m ∈ Middlewares r' →
            is_Some (HTTPMiddlewares (filter_in recognized visit h) !! m).
Proof.
  intros Hv Hres k r' m. rewrite filter_Routers_closed by done.
  destruct (Routers h !! k) as [r|] eqn:Hk; [|done].
  destruct (decide (survives recognized r)) as [Hs|]; [|done].
  intros [= <-] Hm. cbn [set_EntryPoints Middlewares] in Hm.
  rewrite filter_Middlewares_kept; [by eapply Hres | done |].
  intros _ _ _ _. by exists k, r.
Qed.

(** X9. A fragment that needs no filtering is left alone: when every router
    has at least one entry point and recognized entry points only, the
    filter returns the fragment as it is, services and middlewares
    included. *)
Theorem filter_recognized_fragment visit h :
  range_order (Routers h) visit →
  (∀ k r, Routers h !! k = Some r →
          EntryPoints r ≠ [] ∧
          Forall (λ e, is_Some (recognized !! e)) (EntryPoints r)) →
  filter_in recognized visit h = h.
Proof. apply filter_fixed. Qed.

(** X10. The filter is idempotent: filtering a filtered fragment against
    the same recognized set changes nothing. *)
Theorem filter_idempotent h :
  filter_fragment recognized (filter_fragment recognized h) =
  filter_fragment recognized h.
Proof.
  unfold filter_fragment at 1. apply filter_fixed.
  - apply range_order_canonical.
  - intros k r' Hk. unfold filter_fragment in Hk.
    rewrite filter_Routers_closed in Hk by apply range_order_canonical.
    destruct (Routers h !! k) as [r|]; [|done].
    destruct (decide (survives recognized r)) as [Hs|]; [|done].
    injection Hk as <-. cbn [set_EntryPoints EntryPoints].
    split; [done | apply keep_recognized_Forall].
Qed.

(** X26. A middleware that no router of the fragment lists is never
    touched by the filter, whatever happens to the routers. *)
Theorem filter_leaves_unlisted_middlewares visit h m :
  range_order (Routers h) visit →
  (∀ k r, Routers h !! k = Some r → m ∉ Middlewares r) →
  HTTPMiddlewares (filter_in recognized visit h) !! m = HTTPMiddlewares h !! m.
Proof.
  intros Hv Hnone. apply filter_Middlewares_kept; [done|].
  intros k r Hk Hm. by destruct (Hnone k r Hk).
Qed.
End FilterMore.

Lemma filter_order_irrelevant_witness :
  range_order (Routers mixed) admin_first ∧
  range_order (Routers mixed) (map_to_list (Routers mixed)) ∧
  Filtering.filter_in web_only admin_first mixed =
  Filtering.filter_in web_only (map_to_list (Routers mixed)) mixed.
Proof.
  assert (Hv : range_order (Routers mixed) admin_first).
  { unfold range_order. vm_compute. first [reflexivity | apply perm_swap]. }
  assert (Hv' : range_order (Routers mixed) (map_to_list (Routers mixed))).
  { unfold range_order. reflexivity. }
  split_and!; [exact Hv | exact Hv' |].
  exact (filter_order_irrelevant web_only admin_first _ mixed Hv Hv').
Defined.

Lemma filter_leaves_recognized_witness :
  range_order (Routers mixed) admin_first ∧
  Routers (Filtering.filter_in web_only admin_first mixed) !! "app" =
    Some app_filtered ∧
  EntryPoints app_filtered ≠ [] ∧
  Forall (λ e, is_Some (web_only !! e)) (EntryPoints app_filtered) ∧
  ∃ r, Routers mixed !! "app" = Some r ∧
       Middlewares app_filtered = Middlewares r ∧
       Service app_filtered = Service r ∧
       Rule app_filtered = Rule r ∧
       sublist (EntryPoints app_filtered) (EntryPoints r).
Proof.
  assert (Hv : range_order (Routers mixed) admin_first).
  { unfold range_order. vm_compute. first [reflexivity | apply perm_swap]. }
  assert (Hk : Routers (Filtering.filter_in web_only admin_first mixed) !! "app" =
               Some app_filtered).
  { vm_compute. reflexivity. }
  split; [exact Hv|]. split; [exact Hk|].
  exact (filter_leaves_recognized web_only admin_first mixed "app" app_filtered Hv Hk).
Defined.

Lemma filter_services_witness :
  range_order (Routers mixed) admin_first ∧
  ((∃ k r, Routers mixed !! k = Some r ∧ ¬ Filtering.survives web_only r ∧
           Service r = "svc2") →
   Services (Filtering.filter_in web_only admin_first mixed) !! "svc2" = None) ∧
  ((∀ k r, Routers mixed !! k = Some r → Service r = "svc2" →
           Filtering.survives web_only r) →
   Services (Filtering.filter_in web_only admin_first mixed) !! "svc2" =
   Services mixed !! "svc2").
Proof.
  assert (Hv : range_order (Routers mixed) admin_first).
  { unfold range_order. vm_compute. first [reflexivity | apply perm_swap]. }
  split; [exact Hv|].
  exact (filter_services web_only admin_first mixed "svc2" Hv).
Defined.

Lemma filter_only_removes_witness :
  range_order (Routers mixed) admin_first ∧
  dom (Routers (Filtering.filter_in web_only admin_first mixed)) ⊆
    dom (Routers mixed) ∧
  Services (Filtering.filter_in web_only admin_first mixed) ⊆ Services mixed ∧
  HTTPMiddlewares (Filtering.filter_in web_only admin_first mixed) ⊆
    HTTPMiddlewares mixed.
Proof.
  assert (Hv : range_order (Routers mixed) admin_first).
  { unfold range_order. vm_compute. first [reflexivity | apply perm_swap]. }
  split; [exact Hv|].
  exact (filter_only_removes web_only admin_first mixed Hv).
Defined.

Lemma filter_keeps_middlewares_resolvable_witness :
  range_order (Routers mixed) admin_first ∧
  (∀ k r m, Routers mixed !! k = Some r → m ∈ Middlewares r →
            is_Some (HTTPMiddlewares mixed !! m)) ∧
  ∀ k r' m,
    Routers (Filtering.filter_in web_only admin_first mixed) !! k = Some r' →
    m ∈ Middlewares r' →
    is_Some (HTTPMiddlewares (Filtering.filter_in web_only admin_first mixed) !! m).
Proof.
  assert (Hv : range_order (Routers mixed) admin_first).
  { unfold range_order. vm_compute. first [reflexivity | apply perm_swap]. }
  assert (Hall : map_Forall (λ _ r,
                   Forall (λ m, is_Some (HTTPMiddlewares mixed !! m))
                          (Middlewares r)) (Routers mixed)).
  { apply (bool_decide_unpack _). vm_compute. exact I. }
  assert (Hres : ∀ k r m, Routers mixed !! k = Some r → m ∈ Middlewares r →
                          is_Some (HTTPMiddlewares mixed !! m)).
  { intros k r m Hk Hm. specialize (Hall k r Hk). cbv beta in Hall.
    rewrite Forall_forall in Hall. by apply Hall. }
  split_and!; [exact Hv | exact Hres |].
  exact (filter_keeps_middlewares_resolvable web_only admin_first mixed Hv Hres).
Defined.

Lemma filter_recognized_fragment_witness :
  range_order (Routers nodeC) (map_to_list (Routers nodeC)) ∧
  (∀ k r, Routers nodeC !! k = Some r →
          EntryPoints r ≠ [] ∧
          Forall (λ e, is_Some (web_only !! e)) (EntryPoints r)) ∧
  Filtering.filter_in web_only (map_to_list (Routers nodeC)) nodeC = nodeC.
Proof.
  assert (Hv : range_order (Routers nodeC) (map_to_list (Routers nodeC))).
  { unfold range_order. reflexivity. }
  assert (Hall : map_Forall (λ _ r,
                   EntryPoints r ≠ [] ∧
                   Forall (λ e, is_Some (web_only !! e)) (EntryPoints r))
                 (Routers nodeC)).
  { apply (bool_decide_unpack _). vm_compute. exact I. }
  split_and!; [exact Hv | exact Hall |].
  exact (filter_recognized_fragment web_only _ nodeC Hv Hall).
Defined.

Lemma filter_leaves_unlisted_middlewares_witness :
  range_order (Routers with_spare) admin_first ∧
  (∀ k r, Routers with_spare !! k = Some r → "spare" ∉ Middlewares r) ∧
  HTTPMiddlewares (Filtering.filter_in web_only admin_first with_spare) !! "spare" =
    HTTPMiddlewares with_spare !! "spare".
Proof.
  assert (Hv : range_order (Routers with_spare) admin_first).
  { unfold range_order. vm_compute. first [reflexivity | apply perm_swap]. }
  assert (Hall : map_Forall (λ _ r, "spare" ∉ Middlewares r) (Routers with_spare)).
  { apply (bool_decide_unpack _). vm_compute. exact I. }
  split_and!; [exact Hv | exact Hall |].
  exact (filter_leaves_unlisted_middlewares web_only admin_first with_spare
           "spare" Hv Hall).
Defined.

(* ===================================================================== *)
(** * More on the rewriting of unnamed/part_000                           *)
(* ===================================================================== *)

Section Strings.
Import Rewriting.
Implicit Types (s t old new pre post : string).

Lemma append_cons c s t : String c s +:+ t = String c (s +:+ t).
Proof. reflexivity. Qed.

Lemma append_nil t : "" +:+ t = t.
Proof. reflexivity. Qed.

Lemma append_length s t :
  String.length (s +:+ t) = (String.length s + String.length t)%nat.
Proof.
  induction s as [|c s IH]; [done|].
  rewrite append_cons. cbn [String.length]. by rewrite IH.
Qed.

Lemma append_assoc s t u : (s +:+ t) +:+ u = s +:+ (t +:+ u).
Proof.
  induction s as [|c s IH]; [done|]. by rewrite !append_cons, IH.
Qed.

Lemma has_prefix_self old t : has_prefix old (old +:+ t) = true.
Proof.
  induction old as [|c old IH]; [done|].
  rewrite append_cons. cbn [has_prefix].
  by rewrite bool_decide_eq_true_2, IH.
Qed.

Lemma skip_append old t : skip (String.length old) (old +:+ t) = t.
Proof.
  induction old as [|c old IH]; [by destruct t|].
  rewrite append_cons. by cbn [String.length skip].
Qed.

(** Whether [old] starts [s +:+ t] is settled within [s] when [s] is at
    least as long as [old]. *)
Lemma has_prefix_cut old s t :
  (String.length old ≤ String.length s)%nat →
  has_prefix old (s +:+ t) = has_prefix old s.
Proof.
  revert s. induction old as [|a old IH]; intros s Hlen.
  - by destruct s.
  - destruct s as [|b s]; cbn [String.length] in Hlen; [lia|].
    rewrite append_cons. cbn [has_prefix].
    rewrite IH by lia. done.
Qed.

Lemma has_prefix_skip_length old s :
  has_prefix old s = true →
  (String.length (skip (String.length old) s) + String.length old =
   String.length s)%nat.
Proof.
  revert s. induction old as [|a old IH]; intros s; cbn [has_prefix String.length skip].
  - intros _. destruct s; cbn [String.length]; lia.
  - destruct s as [|b s]; [done|]. intros [_ H]%andb_true_iff.
    cbn [String.length]. specialize (IH s H). lia.
Qed.

(** Everything before the first occurrence is kept, the occurrence is
    replaced and everything after it is kept. *)
Lemma replace_scan_first fuel old_init c new pre post :
  occurs (old_init +:+ String c "") (pre +:+ old_init) = false →
  (String.length pre < fuel)%nat →
  replace_scan fuel 1 (old_init +:+ String c "") new
               (pre +:+ (old_init +:+ String c "") +:+ post) =
    pre +:+ new +:+ post.
Proof.
  set (old := old_init +:+ String c "").
  revert fuel. induction pre as [|x pre IH]; intros fuel Hocc Hfuel.
  - destruct fuel as [|fuel]; [cbn [String.length] in Hfuel; lia|].
    rewrite replace_scan_once, !append_nil.
    by rewrite has_prefix_self, skip_append.
  - destruct fuel as [|fuel]; [cbn [String.length] in Hfuel; lia|].
    rewrite replace_scan_once.
    assert (Hhead : has_prefix old (String x pre +:+ old +:+ post) = false).
    { pose proof (occurs_head _ _ Hocc) as Hh.
      replace (String x pre +:+ old +:+ post)
        with ((String x pre +:+ old_init) +:+ (String c "" +:+ post)).
      - rewrite has_prefix_cut; [done|].
        unfold old. rewrite !append_length. cbn [String.length]. lia.
      - unfold old. by rewrite !append_assoc. }
    rewrite Hhead, !append_cons. f_equal. apply IH.
    + rewrite append_cons in Hocc. by eapply occurs_tail.
    + cbn [String.length] in Hfuel. lia.
Qed.

(** Replacing one occurrence changes the length by the difference of the
    lengths of [new] and [old]. *)
Lemma replace_scan_length fuel old new s :
  occurs old s = true →
  (String.length s < fuel)%nat →
  (String.length (replace_scan fuel 1 old new s) + String.length old =
   String.length s + String.length new)%nat.
Proof.
  revert fuel. induction s as [|x s IH]; intros fuel Hocc Hfuel.
  - destruct fuel as [|fuel]; [cbn [String.length] in Hfuel; lia|].
    rewrite replace_scan_once. cbn [occurs] in Hocc.
    rewrite orb_false_r in Hocc. rewrite Hocc.
    rewrite append_length.
    pose proof (has_prefix_skip_length old "" Hocc). lia.
  - destruct fuel as [|fuel]; [cbn [String.length] in Hfuel; lia|].
    rewrite replace_scan_once.
    destruct (has_prefix old (String x s)) eqn:Hp.
    + rewrite append_length.
      pose proof (has_prefix_skip_length old (String x s) Hp). lia.
    + cbn [occurs] in Hocc. rewrite Hp in Hocc. cbn [orb] in Hocc.
      cbn [String.length] in *. specialize (IH fuel Hocc ltac:(lia)). lia.
Qed.

(** X11. First occurrence only.  In a reference [pre@http post] where no
    occurrence of [@http] begins inside [pre], the rewriting replaces that
    occurrence and keeps [pre] and [post], whatever [post] holds. *)
Theorem rewrite_reference_first pre post :
  occurs "@http" (pre +:+ "@htt") = false →
  rewrite_reference (pre +:+ "@http" +:+ post) =
    pre +:+ "@plugin-multi-http-provider" +:+ post.
Proof.
  intros Hocc. unfold rewrite_reference, Replace.
  rewrite bool_decide_eq_false_2 by lia.
  change (Z.to_nat 1) with 1%nat.
  apply (replace_scan_first _ "@htt" _ "@plugin-multi-http-provider" pre post);
    [done|].
  rewrite append_length. lia.
Qed.

(** X12. A reference is left as it is exactly when [@http] does not occur
    in it; a reference in which it occurs grows by the twenty-two bytes
    that separate the two tags. *)
Theorem rewrite_reference_changes m :
  (rewrite_reference m = m ↔ occurs "@http" m = false) ∧
  (occurs "@http" m = true →
   String.length (rewrite_reference m) = (String.length m + 22)%nat).
Proof.
  assert (Hgrow : occurs "@http" m = true →
            String.length (rewrite_reference m) = (String.length m + 22)%nat).
  { intros Hocc. unfold rewrite_reference, Replace.
    rewrite bool_decide_eq_false_2 by lia.
    change (Z.to_nat 1) with 1%nat.
    pose proof (replace_scan_length (S (String.length m)) "@http"
                  "@plugin-multi-http-provider" m Hocc ltac:(lia)) as Hlen.
    cbn [String.length] in Hlen |- *. lia. }
  split; [|exact Hgrow]. split.
  - intros Hfix. destruct (occurs "@http" m) eqn:Hocc; [|done].
    specialize (Hgrow eq_refl). rewrite Hfix in Hgrow. lia.
  - apply rewrite_reference_absent.
Qed.
End Strings.

Section RewriteMore.
Import Rewriting.
Context {Svc Mw : Type}.
Implicit Types (h : HTTPConfiguration Svc Mw) (visit : list (string * Router)).

(** X13. The rewriting touches middleware references only, in whatever
    order the routers are ranged over: services and middlewares are the
    maps of the input, no router is removed or added, and a router keeps
    all its fields but the list of references, rewritten one by one. *)
Theorem rewrite_touches_references_only visit h :
  range_order (Routers h) visit →
  Services (rewrite_in visit h) = Services h ∧
  HTTPMiddlewares (rewrite_in visit h) = HTTPMiddlewares h ∧
  ∀ k, Routers (rewrite_in visit h) !! k =
         (λ r, {| EntryPoints := EntryPoints r;
                  Middlewares := rewrite_reference <$> Middlewares r;
                  Service := Service r; Rule := Rule r |}) <$> Routers h !! k.
Proof.
  intros Hv. rewrite rewrite_in_fmap by done.
  cbn [Routers Services HTTPMiddlewares]. split_and!; [done..|].
  intros k. by rewrite lookup_fmap.
Qed.

Lemma rewrite_router_fixed v :
  rewrite_router v = v ↔
  ∀ m, m ∈ Middlewares v → rewrite_reference m = m.
Proof.
  unfold rewrite_router, set_Middlewares. split.
  - intros Heq m Hm. apply (f_equal Middlewares) in Heq.
    cbn [Middlewares] in Heq.
    apply list_elem_of_lookup in Hm as [i Hi].
    apply (f_equal (λ l, l !! i)) in Heq.
    rewrite list_lookup_fmap, Hi in Heq. by injection Heq.
  - intros Hall. destruct v as [eps ms svc rule].
    cbn [EntryPoints Middlewares Service Rule] in *. f_equal.
    rewrite <- (list_fmap_id ms) at 2. apply list_fmap_ext.
    intros i m Hi. apply Hall. by eapply list_elem_of_lookup_2.
Qed.

Lemma rewrite_fragment_fixed h :
  rewrite_fragment h = h ↔
  ∀ k v m, Routers h !! k = Some v → m ∈ Middlewares v →
           rewrite_reference m = m.
Proof.
  rewrite rewrite_fragment_fmap. split.
  - intros Heq k v m Hk Hm. apply (f_equal Routers) in Heq.
    cbn [Routers] in Heq.
    apply (f_equal (λ rs, rs !! k)) in Heq. rewrite lookup_fmap, Hk in Heq.
    cbn [fmap option_fmap option_map] in Heq. injection Heq as Heq.
    by apply (rewrite_router_fixed v).
  - intros Hall. apply HTTPConfiguration_eq; cbn [Routers Services HTTPMiddlewares];
      [|done..].
    apply map_eq. intros k. rewrite lookup_fmap.
    destruct (Routers h !! k) as [v|] eqn:Hk; [|done].
    cbn [fmap option_fmap option_map]. f_equal.
    apply rewrite_router_fixed. intros m Hm. by apply (Hall k v m).
Qed.

(** X14. A fragment goes through the rewriting unchanged exactly when none
    of its middleware references contains [@http]. *)
Theorem rewrite_fragment_unchanged_iff h :
  rewrite_fragment h = h ↔
  ∀ k v m, Routers h !! k = Some v → m ∈ Middlewares v →
           occurs "@http" m = false.
Proof.
  rewrite rewrite_fragment_fixed. split; intros Hall k v m Hk Hm.
  - apply rewrite_reference_changes. by apply (Hall k v m).
  - apply rewrite_reference_changes. by apply (Hall k v m).
Qed.

(** X15. Where the rewriting is idempotent.  Applying it to its own output
    changes nothing exactly when no reference of the input, once rewritten,
    still contains [@http]. *)
Theorem rewrite_fragment_idempotent_iff h :
  rewrite_fragment (rewrite_fragment h) = rewrite_fragment h ↔
  ∀ k v m, Routers h !! k = Some v → m ∈ Middlewares v →
           occurs "@http" (rewrite_reference m) = false.
Proof.
  rewrite rewrite_fragment_unchanged_iff.
  rewrite rewrite_fragment_fmap. cbn [Routers]. split.
  - intros Hall k v m Hk Hm. apply (Hall k (rewrite_router v)).
    + by rewrite lookup_fmap, Hk.
    + change (Middlewares (rewrite_router v))
        with (rewrite_reference <$> Middlewares v).
      by apply list_elem_of_fmap_2.
  - intros Hall k v' m'. rewrite lookup_fmap.
    destruct (Routers h !! k) as [v|] eqn:Hk; [|done].
    cbn [fmap option_fmap option_map]. intros [= <-].
    change (Middlewares (rewrite_router v))
      with (rewrite_reference <$> Middlewares v).
    intros (m & -> & Hm)%list_elem_of_fmap.
    by apply (Hall k v m).
Qed.
End RewriteMore.

Lemma rewrite_reference_first_witness :
  Rewriting.occurs "@http" ("auth" +:+ "@htt") = false ∧
  Rewriting.rewrite_reference ("auth" +:+ "@http" +:+ "@http") =
    "auth" +:+ "@plugin-multi-http-provider" +:+ "@http".
Proof.
  assert (Hocc : Rewriting.occurs "@http" ("auth" +:+ "@htt") = false).
  { vm_compute. reflexivity. }
  split; [exact Hocc|]. exact (rewrite_reference_first "auth" "@http" Hocc).
Defined.

Lemma rewrite_touches_references_only_witness :
  range_order (Routers twice_tagged) (map_to_list (Routers twice_tagged)) ∧
  Services (Rewriting.rewrite_in (map_to_list (Routers twice_tagged)) twice_tagged) =
    Services twice_tagged ∧
  HTTPMiddlewares
    (Rewriting.rewrite_in (map_to_list (Routers twice_tagged)) twice_tagged) =
    HTTPMiddlewares twice_tagged ∧
  ∀ k, Routers (Rewriting.rewrite_in (map_to_list (Routers twice_tagged))
                                     twice_tagged) !! k =
         (λ r, {| EntryPoints := EntryPoints r;
                  Middlewares := Rewriting.rewrite_reference <$> Middlewares r;
                  Service := Service r; Rule := Rule r |})
           <$> Routers twice_tagged !! k.
Proof.
  assert (Hv : range_order (Routers twice_tagged)
                           (map_to_list (Routers twice_tagged))).
  { unfold range_order. reflexivity. }
  split; [exact Hv|].
  exact (rewrite_touches_references_only _ twice_tagged Hv).
Defined.

(* ===================================================================== *)
(** * More on [loadConfiguration]                                         *)
(* ===================================================================== *)

Section PassesMore.
Context {Svc Mw : Type}.
Variable json_Unmarshal : string → option (Configuration Svc Mw).
Implicit Types (pf : Filtering.Provider) (pr : Rewriting.Provider)
               (w : pass Svc Mw).

(** X16. One endpoint is enough to stop the provider.  If, on a tick, any
    configured endpoint answers, with whatever status, with a body that
    decodes to a document without [http] member or with a router bound to
    [null], the tick panics with a nil dereference before anything is
    sent, and no later event is served.  Both variants, for a provider
    whose ticker could be made. *)
Theorem missing_http_stops_polling pf pr w rest :
  fair w →
  (0 < Filtering.pollInterval pf →
   serves_unusable json_Unmarshal w (Filtering.endpoints pf) →
   Filtering.loadConfiguration json_Unmarshal pf (TickerC w :: rest) =
     ([], Panicked nil_dereference)) ∧
  (0 < Rewriting.pollInterval pr →
   serves_unusable json_Unmarshal w (Rewriting.endpoints pr) →
   Rewriting.loadConfiguration json_Unmarshal pr (TickerC w :: rest) =
     ([], Panicked nil_dereference)).
Proof.
  intros Hfair. split; intros Hpos Hserves.
  - rewrite Filtering_loadConfiguration_run by done. cbn [run].
    by rewrite (tick_panics_nil json_Unmarshal
                  (Filtering.transform (Filtering.entrypoints pf))
                  (Filtering.filter_fragment (Filtering.entrypoints pf))
                  (Filtering_transform_document (Filtering.entrypoints pf))
                  (Filtering_transform_unusable (Filtering.entrypoints pf))
                  (Filtering.endpoints pf) w Hfair Hserves).
  - rewrite Rewriting_loadConfiguration_run by done. cbn [run].
    by rewrite (tick_panics_nil json_Unmarshal Rewriting.transform
                  Rewriting.rewrite_fragment Rewriting_transform_document
                  Rewriting_transform_unusable
                  (Rewriting.endpoints pr) w Hfair Hserves).
Qed.

(** X17. What the payload of a tick of the filtering variant holds.  On a
    tick on which every body that is received and decoded is a fragment,
    the routers, services and middlewares of the one payload sent are
    entries of the filtered fragments of the endpoints that handed one
    over, and every name of such a filtered fragment is in the payload.
    Endpoints that failed contribute nothing. *)
Theorem Filtering_tick_payload pf w :
  fair w → 0 < Filtering.pollInterval pf →
  hands_fragments json_Unmarshal w (Filtering.endpoints pf) →
  ∃ merged,
    Filtering.loadConfiguration json_Unmarshal pf [TickerC w] =
      ([{| PayloadConfiguration := Some (document merged) |}], Selecting) ∧
    comes_from json_Unmarshal w (Filtering.endpoints pf)
      (Filtering.filter_fragment (Filtering.entrypoints pf)) Routers merged ∧
    comes_from json_Unmarshal w (Filtering.endpoints pf)
      (Filtering.filter_fragment (Filtering.entrypoints pf)) Services merged ∧
    comes_from json_Unmarshal w (Filtering.endpoints pf)
      (Filtering.filter_fragment (Filtering.entrypoints pf))
      HTTPMiddlewares merged.
Proof.
  intros Hfair Hpos Hfrag.
  destruct (tick_comes_from json_Unmarshal
              (Filtering.transform (Filtering.entrypoints pf))
              (Filtering.filter_fragment (Filtering.entrypoints pf))
              (Filtering_transform_document (Filtering.entrypoints pf))
              (Filtering.endpoints pf) w Hfair Hfrag)
    as (merged & Htick & Hfrom).
  exists merged. split; [|exact Hfrom].
  rewrite Filtering_loadConfiguration_run by done. cbn [run].
  by rewrite Htick.
Qed.

(** X18. What the payload of a tick of the rewriting variant holds: the
    same, with the rewritten fragments. *)
Theorem Rewriting_tick_payload pr w :
  fair w → 0 < Rewriting.pollInterval pr →
  hands_fragments json_Unmarshal w (Rewriting.endpoints pr) →
  ∃ merged,
    Rewriting.loadConfiguration json_Unmarshal pr [TickerC w] =
      ([{| PayloadConfiguration := Some (document merged) |}], Selecting) ∧
    comes_from json_Unmarshal w (Rewriting.endpoints pr)
      Rewriting.rewrite_fragment Routers merged ∧
    comes_from json_Unmarshal w (Rewriting.endpoints pr)
      Rewriting.rewrite_fragment Services merged ∧
    comes_from json_Unmarshal w (Rewriting.endpoints pr)
      Rewriting.rewrite_fragment HTTPMiddlewares merged.
Proof.
  intros Hfair Hpos Hfrag.
  destruct (tick_comes_from json_Unmarshal Rewriting.transform
              Rewriting.rewrite_fragment Rewriting_transform_document
              (Rewriting.endpoints pr) w Hfair Hfrag)
    as (merged & Htick & Hfrom).
  exists merged. split; [|exact Hfrom].
  rewrite Rewriting_loadConfiguration_run by done. cbn [run].
  by rewrite Htick.
Qed.

(** X19. A tick on which no endpoint hands over a document (request
    failed, body unreadable or undecodable, or no endpoint at all) still
    sends one payload, whose configuration is present and has three empty
    maps.  Both variants, for a provider whose ticker could be made. *)
Theorem nobody_answers_empty_payload pf pr w :
  fair w →
  (0 < Filtering.pollInterval pf →
   nobody_answers json_Unmarshal w (Filtering.endpoints pf) →
   Filtering.loadConfiguration json_Unmarshal pf [TickerC w] =
     ([{| PayloadConfiguration := Some (document emptyHTTP) |}], Selecting)) ∧
  (0 < Rewriting.pollInterval pr →
   nobody_answers json_Unmarshal w (Rewriting.endpoints pr) →
   Rewriting.loadConfiguration json_Unmarshal pr [TickerC w] =
     ([{| PayloadConfiguration := Some (document emptyHTTP) |}], Selecting)).
Proof.
  intros Hfair. split; intros Hpos Hnone.
  - rewrite Filtering_loadConfiguration_run by done. cbn [run].
    by rewrite (tick_all_failed json_Unmarshal _ _ w Hfair Hnone).
  - rewrite Rewriting_loadConfiguration_run by done. cbn [run].
    by rewrite (tick_all_failed json_Unmarshal _ _ w Hfair Hnone).
Qed.

Lemma tick_gets_through transform f endpoints w :
  (∀ h, transform (document h) = Ok (document (f h))) →
  fair w → hands_fragments json_Unmarshal w endpoints →
  is_Some (match tick json_Unmarshal transform endpoints w with
           | Ok payload => Some payload
           | Panic _ => None
           end).
Proof.
  intros Hdoc Hfair Hfrag.
  destruct (tick_merges json_Unmarshal transform f Hdoc endpoints w Hfair Hfrag)
    as (frags & _ & Htick).
  by rewrite Htick.
Qed.

Lemma run_single transform endpoints w payload :
  tick json_Unmarshal transform endpoints w = Ok payload →
  run json_Unmarshal transform endpoints [TickerC w] [] = ([payload], Selecting).
Proof. intros Htick. cbn [run]. by rewrite Htick. Qed.

(** X20. No state is carried from one tick to the next.  On a run of
    ticks on each of which every body that is received and decoded is a
    fragment, one payload is sent per tick, in order, and the payload of a
    tick is the one that tick would send on its own.  Both variants, for a
    provider whose ticker could be made. *)
Theorem ticks_are_independent pf pr (ws : list (pass Svc Mw)) :
  Forall fair ws →
  (0 < Filtering.pollInterval pf →
   Forall (λ w, hands_fragments json_Unmarshal w (Filtering.endpoints pf)) ws →
   ∃ payloads,
     Filtering.loadConfiguration json_Unmarshal pf (TickerC <$> ws) =
       (payloads, Selecting) ∧
     Forall2 (λ w payload,
                Filtering.loadConfiguration json_Unmarshal pf [TickerC w] =
                  ([payload], Selecting)) ws payloads) ∧
  (0 < Rewriting.pollInterval pr →
   Forall (λ w, hands_fragments json_Unmarshal w (Rewriting.endpoints pr)) ws →
   ∃ payloads,
     Rewriting.loadConfiguration json_Unmarshal pr (TickerC <$> ws) =
       (payloads, Selecting) ∧
     Forall2 (λ w payload,
                Rewriting.loadConfiguration json_Unmarshal pr [TickerC w] =
                  ([payload], Selecting)) ws payloads).
Proof.
  intros Hfair. rewrite Forall_forall in Hfair.
  split; intros Hpos Hfrag; rewrite Forall_forall in Hfrag.
  - destruct (run_ticks json_Unmarshal
                (Filtering.transform (Filtering.entrypoints pf))
                (Filtering.endpoints pf) ws []) as (payloads & Hrun & Hall).
    { intros w Hw.
      eapply tick_gets_through; [|by apply Hfair|by apply Hfrag].
      apply Filtering_transform_document. }
    exists payloads. split; [by rewrite Filtering_loadConfiguration_run|].
    eapply Forall2_impl; [exact Hall|]. intros w payload Htick.
    rewrite Filtering_loadConfiguration_run by done. by apply run_single.
  - destruct (run_ticks json_Unmarshal Rewriting.transform
                (Rewriting.endpoints pr) ws []) as (payloads & Hrun & Hall).
    { intros w Hw.
      eapply tick_gets_through; [|by apply Hfair|by apply Hfrag].
      apply Rewriting_transform_document. }
    exists payloads. split; [by rewrite Rewriting_loadConfiguration_run|].
    eapply Forall2_impl; [exact Hall|]. intros w payload Htick.
    rewrite Rewriting_loadConfiguration_run by done. by apply run_single.
Qed.

Lemma tick_Panic_nil transform f endpoints w msg :
  (∀ h, transform (document h) = Ok (document (f h))) →
  (∀ c, unusable c → transform c = Panic nil_dereference) →
  tick json_Unmarshal transform endpoints w = Panic msg →
  msg = nil_dereference.
Proof.
  intros Hdoc Hun. unfold tick.
  destruct (poll json_Unmarshal transform (http_Get w)
              (endpoints_visit w endpoints) ∅) as [configs|msg'] eqn:Hpoll;
    cbn [obind].
  - unfold mergeConfig.
    destruct (merge_loop emptyHTTP (configs_visit w configs).*2)
      as [merged|msg'] eqn:Hloop; cbn [obind]; [done|].
    intros [= <-]. by apply merge_loop_Panic in Hloop as [-> _].
  - intros [= <-]. by eapply (poll_Panic_nil json_Unmarshal transform f).
Qed.

Lemma run_Panic_nil transform f endpoints events sent msg :
  (∀ h, transform (document h) = Ok (document (f h))) →
  (∀ c, unusable c → transform c = Panic nil_dereference) →
  (run json_Unmarshal transform endpoints events sent).2 = Panicked msg →
  msg = nil_dereference.
Proof.
  intros Hdoc Hun. revert sent.
  induction events as [|[w|] events IH]; intros sent; cbn [run snd]; [done| |done].
  destruct (tick json_Unmarshal transform endpoints w) as [payload|msg'] eqn:Htick.
  - apply IH.
  - cbn [snd]. intros [= <-]. by eapply tick_Panic_nil.
Qed.

(** X21. What the first check of [Init] is for.  [loadConfiguration]
    starts by making a ticker, which panics for an interval that is not
    above zero: such a provider sends nothing and serves no event, not
    even the end of its context.  No other panic of the loop carries that
    message, so a provider that [Init] accepted never ends this way.
    Both variants. *)
Theorem Init_guards_NewTicker pf pr events :
  (Filtering.pollInterval pf ≤ 0 →
   Filtering.loadConfiguration json_Unmarshal pf events =
     ([], Panicked non_positive_interval)) ∧
  ((Filtering.loadConfiguration json_Unmarshal pf events).2 =
     Panicked non_positive_interval ↔ Filtering.pollInterval pf ≤ 0) ∧
  (Filtering.Init pf = None →
   (Filtering.loadConfiguration json_Unmarshal pf events).2 ≠
     Panicked non_positive_interval) ∧
  (Rewriting.pollInterval pr ≤ 0 →
   Rewriting.loadConfiguration json_Unmarshal pr events =
     ([], Panicked non_positive_interval)) ∧
  ((Rewriting.loadConfiguration json_Unmarshal pr events).2 =
     Panicked non_positive_interval ↔ Rewriting.pollInterval pr ≤ 0) ∧
  (Rewriting.Init pr = None →
   (Rewriting.loadConfiguration json_Unmarshal pr events).2 ≠
     Panicked non_positive_interval).
Proof.
  assert (HF : (Filtering.loadConfiguration json_Unmarshal pf events).2 =
                 Panicked non_positive_interval ↔ Filtering.pollInterval pf ≤ 0).
  { unfold Filtering.loadConfiguration. case_bool_decide as Hle; [done|].
    split; [|done]. intros Hmsg.
    apply (run_Panic_nil _ (Filtering.filter_fragment (Filtering.entrypoints pf)))
      in Hmsg;
      [done | apply Filtering_transform_document
            | apply Filtering_transform_unusable]. }
  assert (HR : (Rewriting.loadConfiguration json_Unmarshal pr events).2 =
                 Panicked non_positive_interval ↔ Rewriting.pollInterval pr ≤ 0).
  { unfold Rewriting.loadConfiguration. case_bool_decide as Hle; [done|].
    split; [|done]. intros Hmsg.
    apply (run_Panic_nil _ Rewriting.rewrite_fragment) in Hmsg;
      [done | apply Rewriting_transform_document
            | apply Rewriting_transform_unusable]. }
  split_and!.
  - intros Hle. unfold Filtering.loadConfiguration.
    by rewrite bool_decide_eq_true_2.
  - exact HF.
  - rewrite HF. unfold Filtering.Init. case_bool_decide; [done | lia].
  - intros Hle. unfold Rewriting.loadConfiguration.
    by rewrite bool_decide_eq_true_2.
  - exact HR.
  - rewrite HR. unfold Rewriting.Init. case_bool_decide; [done | lia].
Qed.
End PassesMore.

(** On [one_ghost] the response of [server2] has status 503 and a body
    with a null router. *)
Lemma missing_http_stops_polling_witness :
  fair one_ghost ∧
  0 < Filtering.pollInterval filtering_provider ∧
  0 < Rewriting.pollInterval rewriting_provider ∧
  serves_unusable ghost_Unmarshal one_ghost two_endpoints ∧
  Filtering.loadConfiguration ghost_Unmarshal filtering_provider
      (TickerC one_ghost :: [TickerC one_down]) =
    ([], Panicked nil_dereference) ∧
  Rewriting.loadConfiguration ghost_Unmarshal rewriting_provider
      (TickerC one_ghost :: [TickerC one_down]) =
    ([], Panicked nil_dereference).
Proof.
  assert (Hfair : fair one_ghost) by apply pass_with_fair.
  assert (Hpf : 0 < Filtering.pollInterval filtering_provider)
    by (vm_compute; reflexivity).
  assert (Hpr : 0 < Rewriting.pollInterval rewriting_provider)
    by (vm_compute; reflexivity).
  assert (Hserves : serves_unusable ghost_Unmarshal one_ghost two_endpoints).
  { apply serves_unusable_iff. vm_compute. reflexivity. }
  destruct (missing_http_stops_polling ghost_Unmarshal filtering_provider
              rewriting_provider one_ghost [TickerC one_down] Hfair)
    as [Hf Hr].
  split; [exact Hfair|]. split; [exact Hpf|]. split; [exact Hpr|].
  split; [exact Hserves|].
  split; [exact (Hf Hpf Hserves) | exact (Hr Hpr Hserves)].
Defined.

Lemma Filtering_tick_payload_witness :
  fair both_up ∧ 0 < Filtering.pollInterval filtering_provider ∧
  hands_fragments sample_Unmarshal both_up two_endpoints ∧
  ∃ merged,
    Filtering.loadConfiguration sample_Unmarshal filtering_provider
        [TickerC both_up] =
      ([{| PayloadConfiguration := Some (document merged) |}], Selecting) ∧
    comes_from sample_Unmarshal both_up two_endpoints
      (Filtering.filter_fragment web_only) Routers merged ∧
    comes_from sample_Unmarshal both_up two_endpoints
      (Filtering.filter_fragment web_only) Services merged ∧
    comes_from sample_Unmarshal both_up two_endpoints
      (Filtering.filter_fragment web_only) HTTPMiddlewares merged.
Proof.
  assert (Hfair : fair both_up) by apply pass_with_fair.
  assert (Hpf : 0 < Filtering.pollInterval filtering_provider)
    by (vm_compute; reflexivity).
  assert (Hfrag : hands_fragments sample_Unmarshal both_up two_endpoints).
  { apply hands_fragments_iff. vm_compute. reflexivity. }
  split; [exact Hfair|]. split; [exact Hpf|]. split; [exact Hfrag|].
  exact (Filtering_tick_payload sample_Unmarshal filtering_provider both_up
           Hfair Hpf Hfrag).
Defined.

Lemma Rewriting_tick_payload_witness :
  fair both_up ∧ 0 < Rewriting.pollInterval rewriting_provider ∧
  hands_fragments sample_Unmarshal both_up two_endpoints ∧
  ∃ merged,
    Rewriting.loadConfiguration sample_Unmarshal rewriting_provider
        [TickerC both_up] =
      ([{| PayloadConfiguration := Some (document merged) |}], Selecting) ∧
    comes_from sample_Unmarshal both_up two_endpoints
      Rewriting.rewrite_fragment Routers merged ∧
    comes_from sample_Unmarshal both_up two_endpoints
      Rewriting.rewrite_fragment Services merged ∧
    comes_from sample_Unmarshal both_up two_endpoints
      Rewriting.rewrite_fragment HTTPMiddlewares merged.
Proof.
  assert (Hfair : fair both_up) by apply pass_with_fair.
  assert (Hpr : 0 < Rewriting.pollInterval rewriting_provider)
    by (vm_compute; reflexivity).
  assert (Hfrag : hands_fragments sample_Unmarshal both_up two_endpoints).
  { apply hands_fragments_iff. vm_compute. reflexivity. }
  split; [exact Hfair|]. split; [exact Hpr|]. split; [exact Hfrag|].
  exact (Rewriting_tick_payload sample_Unmarshal rewriting_provider both_up
           Hfair Hpr Hfrag).
Defined.

Lemma nobody_answers_empty_payload_witness :
  fair all_down ∧
  0 < Filtering.pollInterval filtering_provider ∧
  0 < Rewriting.pollInterval rewriting_provider ∧
  nobody_answers sample_Unmarshal all_down two_endpoints ∧
  Filtering.loadConfiguration sample_Unmarshal filtering_provider
      [TickerC all_down] =
    ([{| PayloadConfiguration := Some (document emptyHTTP) |}], Selecting) ∧
  Rewriting.loadConfiguration sample_Unmarshal rewriting_provider
      [TickerC all_down] =
    ([{| PayloadConfiguration := Some (document emptyHTTP) |}], Selecting).
Proof.
  assert (Hfair : fair all_down) by apply pass_with_fair.
  assert (Hpf : 0 < Filtering.pollInterval filtering_provider)
    by (vm_compute; reflexivity).
  assert (Hpr : 0 < Rewriting.pollInterval rewriting_provider)
    by (vm_compute; reflexivity).
  assert (Hnone : nobody_answers sample_Unmarshal all_down two_endpoints).
  { intros node e He. unfold two_endpoints in He.
    apply lookup_insert_Some in He as [[<- <-]|[_ He]];
      [vm_compute; reflexivity|].
    apply lookup_singleton_Some in He as [<- <-]. vm_compute. reflexivity. }
  destruct (nobody_answers_empty_payload sample_Unmarshal filtering_provider
              rewriting_provider all_down Hfair) as [Hf Hr].
  split; [exact Hfair|]. split; [exact Hpf|]. split; [exact Hpr|].
  split; [exact Hnone|].
  split; [exact (Hf Hpf Hnone) | exact (Hr Hpr Hnone)].
Defined.

Lemma ticks_are_independent_witness :
  Forall fair [both_up; one_down] ∧
  0 < Filtering.pollInterval filtering_provider ∧
  0 < Rewriting.pollInterval rewriting_provider ∧
  Forall (λ w, hands_fragments sample_Unmarshal w two_endpoints)
         [both_up; one_down] ∧
  (∃ payloads,
     Filtering.loadConfiguration sample_Unmarshal filtering_provider
         (TickerC <$> [both_up; one_down]) = (payloads, Selecting) ∧
     Forall2 (λ w payload,
                Filtering.loadConfiguration sample_Unmarshal filtering_provider
                    [TickerC w] = ([payload], Selecting))
             [both_up; one_down] payloads) ∧
  (∃ payloads,
     Rewriting.loadConfiguration sample_Unmarshal rewriting_provider
         (TickerC <$> [both_up; one_down]) = (payloads, Selecting) ∧
     Forall2 (λ w payload,
                Rewriting.loadConfiguration sample_Unmarshal rewriting_provider
                    [TickerC w] = ([payload], Selecting))
             [both_up; one_down] payloads).
Proof.
  assert (Hfair : Forall fair [both_up; one_down]).
  { repeat apply Forall_cons_2; [| |apply Forall_nil_2]; apply pass_with_fair. }
  assert (Hpf : 0 < Filtering.pollInterval filtering_provider)
    by (vm_compute; reflexivity).
  assert (Hpr : 0 < Rewriting.pollInterval rewriting_provider)
    by (vm_compute; reflexivity).
  assert (Hfrag : Forall (λ w, hands_fragments sample_Unmarshal w two_endpoints)
                         [both_up; one_down]).
  { repeat apply Forall_cons_2; [| |apply Forall_nil_2];
      apply hands_fragments_iff; vm_compute; reflexivity. }
  destruct (ticks_are_independent sample_Unmarshal filtering_provider
              rewriting_provider [both_up; one_down] Hfair) as [Hf Hr].
  split; [exact Hfair|]. split; [exact Hpf|]. split; [exact Hpr|].
  split; [exact Hfrag|].
  split; [exact (Hf Hpf Hfrag) | exact (Hr Hpr Hfrag)].
Defined.

(** A provider with a zero interval that is started without [Init] is gone
    before the end of its context is seen; the sample provider, which [Init]
    accepts, returns on it. *)
Lemma Init_guards_NewTicker_witness :
  Filtering.pollInterval zero_interval_provider ≤ 0 ∧
  Filtering.Init filtering_provider = None ∧
  Rewriting.Init rewriting_provider = None ∧
  Filtering.loadConfiguration sample_Unmarshal zero_interval_provider [CtxDone] =
    ([], Panicked non_positive_interval) ∧
  (Filtering.loadConfiguration sample_Unmarshal filtering_provider [CtxDone]).2 ≠
    Panicked non_positive_interval ∧
  (Rewriting.loadConfiguration sample_Unmarshal rewriting_provider [CtxDone]).2 ≠
    Panicked non_positive_interval.
Proof.
  assert (Hle : Filtering.pollInterval zero_interval_provider ≤ 0)
    by (vm_compute; discriminate).
  assert (Hpf : Filtering.Init filtering_provider = None)
    by (vm_compute; reflexivity).
  assert (Hpr : Rewriting.Init rewriting_provider = None)
    by (vm_compute; reflexivity).
  destruct (Init_guards_NewTicker sample_Unmarshal zero_interval_provider
              rewriting_provider [CtxDone]) as (Hzero & _ & _ & _ & _ & Hr).
  destruct (Init_guards_NewTicker sample_Unmarshal filtering_provider
              rewriting_provider [CtxDone]) as (_ & _ & Hf & _).
  split; [exact Hle|]. split; [exact Hpf|]. split; [exact Hpr|].
  split; [exact (Hzero Hle)|].
  split; [exact (Hf Hpf) | exact (Hr Hpr)].
Defined.

(* ===================================================================== *)
(** * More on [New], [Init], [Provide] and [Stop]                         *)
(* ===================================================================== *)

Lemma call_Some (c : nat) (rt : runtime) :
  ∃ rt',
    call (Some c) rt = Ok rt' ∧ call (Some c) rt' = Ok rt' ∧
    drivers rt' = drivers rt ∧
    length (contexts rt') = length (contexts rt) ∧
    (∀ i : nat, i ≠ c → contexts rt' !! i = contexts rt !! i) ∧
    ((c < length (contexts rt))%nat → contexts rt' !! c = Some true).
Proof.
  eexists. split; [reflexivity|]. cbn [call contexts drivers]. split_and!.
  - by rewrite list_insert_insert_eq.
  - done.
  - by rewrite length_insert.
  - intros i Hi. by rewrite list_lookup_insert_ne.
  - intros Hc. by rewrite list_lookup_insert_eq.
Qed.

(** X22. [Stop] in every state of the provider.  With a nil [cancel] it
    panics.  Otherwise it returns nil, marks the context of its cancel
    function done and leaves every other context and every driver as they
    were; a further [Stop] returns nil and changes nothing.  Both variants. *)
Theorem Stop_cancels_its_context (rt : runtime) :
  (∀ p : Filtering.Provider,
     match Filtering.cancel p with
     | None => Filtering.Stop p rt = Panic nil_dereference
     | Some c =>
         ∃ rt', Filtering.Stop p rt = Ok (rt', None) ∧
                Filtering.Stop p rt' = Ok (rt', None) ∧
                drivers rt' = drivers rt ∧
                length (contexts rt') = length (contexts rt) ∧
                (∀ i : nat, i ≠ c → contexts rt' !! i = contexts rt !! i) ∧
                ((c < length (contexts rt))%nat → contexts rt' !! c = Some true)
     end) ∧
  (∀ p : Rewriting.Provider,
     match Rewriting.cancel p with
     | None => Rewriting.Stop p rt = Panic nil_dereference
     | Some c =>
         ∃ rt', Rewriting.Stop p rt = Ok (rt', None) ∧
                Rewriting.Stop p rt' = Ok (rt', None) ∧
                drivers rt' = drivers rt ∧
                length (contexts rt') = length (contexts rt) ∧
                (∀ i : nat, i ≠ c → contexts rt' !! i = contexts rt !! i) ∧
                ((c < length (contexts rt))%nat → contexts rt' !! c = Some true)
     end).
Proof.
  split; intros p.
  - unfold Filtering.Stop. destruct (Filtering.cancel p) as [c|]; [|done].
    destruct (call_Some c rt) as (rt' & H1 & H2 & Hrest).
    exists rt'. rewrite H1, H2. by cbn [obind].
  - unfold Rewriting.Stop. destruct (Rewriting.cancel p) as [c|]; [|done].
    destruct (call_Some c rt) as (rt' & H1 & H2 & Hrest).
    exists rt'. rewrite H1, H2. by cbn [obind].
Qed.

Lemma cancel_latest (l : list bool) :
  <[S (length l) := true]> ((l ++ [false]) ++ [false]) = l ++ [false; true].
Proof.
  rewrite <- app_assoc. cbn [app].
  replace (S (length l)) with (length l + 1)%nat by lia.
  by rewrite insert_app_r.
Qed.

(** X23. [Provide] called twice.  Each call starts a driver on a context of
    its own and overwrites [cancel]; [Stop] then ends the context of the
    second call only: the driver started by the first call stays on a context
    that is not done, and no later [Stop] reaches it.  Both variants. *)
Theorem Provide_twice_leaves_a_driver (rt : runtime) :
  (∀ p : Filtering.Provider,
     let '(p1, rt1, _) := Filtering.Provide p rt in
     let '(p2, rt2, _) := Filtering.Provide p1 rt1 in
     ∃ rt3, Filtering.Stop p2 rt2 = Ok (rt3, None) ∧
            Filtering.Stop p2 rt3 = Ok (rt3, None) ∧
            contexts rt3 = contexts rt ++ [false; true] ∧
            drivers rt3 =
              drivers rt ++ [length (contexts rt); S (length (contexts rt))]) ∧
  (∀ p : Rewriting.Provider,
     let '(p1, rt1, _) := Rewriting.Provide p rt in
     let '(p2, rt2, _) := Rewriting.Provide p1 rt1 in
     ∃ rt3, Rewriting.Stop p2 rt2 = Ok (rt3, None) ∧
            Rewriting.Stop p2 rt3 = Ok (rt3, None) ∧
            contexts rt3 = contexts rt ++ [false; true] ∧
            drivers rt3 =
              drivers rt ++ [length (contexts rt); S (length (contexts rt))]).
Proof.
  split; intros p.
  - unfold Filtering.Provide, Filtering.Stop, WithCancel, spawn, call.
    cbn [contexts drivers Filtering.set_cancel Filtering.cancel obind].
    rewrite length_app. cbn [length].
    replace (length (contexts rt) + 1)%nat with (S (length (contexts rt))) by lia.
    eexists. split; [reflexivity|]. cbn [contexts drivers].
    rewrite cancel_latest. split_and!.
    + by rewrite list_insert_id
        by (rewrite lookup_app_r by lia;
            by replace (S (length (contexts rt)) - length (contexts rt))%nat
              with 1%nat by lia).
    + done.
    + by rewrite <- app_assoc.
  - unfold Rewriting.Provide, Rewriting.Stop, WithCancel, spawn, call.
    cbn [contexts drivers Rewriting.set_cancel Rewriting.cancel obind].
    rewrite length_app. cbn [length].
    replace (length (contexts rt) + 1)%nat with (S (length (contexts rt))) by lia.
    eexists. split; [reflexivity|]. cbn [contexts drivers].
    rewrite cancel_latest. split_and!.
    + by rewrite list_insert_id
        by (rewrite lookup_app_r by lia;
            by replace (S (length (contexts rt)) - length (contexts rt))%nat
              with 1%nat by lia).
    + done.
    + by rewrite <- app_assoc.
Qed.

Lemma entrypoints_empty_iff (eps : list string) :
  size (foldl (λ acc entrypoint, <[entrypoint := true]> acc)
              (∅ : gmap string bool) eps) = 0%nat ↔ eps = [].
Proof.
  rewrite map_size_empty_iff, map_empty. split.
  - intros Hnone. destruct eps as [|e eps]; [done|]. exfalso.
    assert (Hsome : is_Some (foldl (λ acc entrypoint, <[entrypoint := true]> acc)
                                   (∅ : gmap string bool) (e :: eps) !! e)).
    { apply entrypoints_of_list. left. apply list_elem_of_here. }
    rewrite Hnone in Hsome. by destruct Hsome.
  - by intros ->.
Qed.

(** X24. [New] followed by [Init].  [New] fails exactly when one of the two
    durations does not parse, the poll interval being parsed first, and
    checks nothing else; on what [New] returns, [Init] succeeds exactly when
    both parsed durations are above zero, the configuration names at least
    one endpoint and, in the filtering variant, lists at least one entry
    point.  The default configuration of [CreateConfig], which names no
    endpoint, is therefore never accepted. *)
Theorem New_then_Init (ParseDuration : string → Z + string) (name : string) :
  (∀ config : Filtering.Config,
     match Filtering.New ParseDuration config name with
     | inl p =>
         ∃ pi pt,
           ParseDuration (Filtering.PollInterval config) = inl pi ∧
           ParseDuration (Filtering.PollTimeout config) = inl pt ∧
           (Filtering.Init p = None ↔
              0 < pi ∧ 0 < pt ∧ Filtering.Endpoints config ≠ ∅ ∧
              Filtering.ConfigEntryPoints config ≠ [])
     | inr err =>
         ParseDuration (Filtering.PollInterval config) = inr err ∨
         ((∃ pi, ParseDuration (Filtering.PollInterval config) = inl pi) ∧
          ParseDuration (Filtering.PollTimeout config) = inr err)
     end) ∧
  (∀ config : Rewriting.Config,
     match Rewriting.New ParseDuration config name with
     | inl p =>
         ∃ pi pt,
           ParseDuration (Rewriting.PollInterval config) = inl pi ∧
           ParseDuration (Rewriting.PollTimeout config) = inl pt ∧
           (Rewriting.Init p = None ↔
              0 < pi ∧ 0 < pt ∧ Rewriting.Endpoints config ≠ ∅)
     | inr err =>
         ParseDuration (Rewriting.PollInterval config) = inr err ∨
         ((∃ pi, ParseDuration (Rewriting.PollInterval config) = inl pi) ∧
          ParseDuration (Rewriting.PollTimeout config) = inr err)
     end) ∧
  match Filtering.New ParseDuration Filtering.CreateConfig name with
  | inl p => Filtering.Init p ≠ None
  | inr _ => True
  end ∧
  match Rewriting.New ParseDuration Rewriting.CreateConfig name with
  | inl p => Rewriting.Init p ≠ None
  | inr _ => True
  end.
Proof.
  assert (Hsize : ∀ {A B} (g : A → B) (m : gmap string A),
            Z.of_nat (size (g <$> m)) ≤ 0 ↔ m = ∅).
  { intros A B g m. rewrite map_size_fmap, <- map_size_empty_iff. lia. }
  assert (Heps : ∀ eps : list string,
            Z.of_nat (size (foldl (λ acc entrypoint, <[entrypoint := true]> acc)
                                  (∅ : gmap string bool) eps)) ≤ 0 ↔ eps = []).
  { intros eps. rewrite <- entrypoints_empty_iff. lia. }
  assert (HF : ∀ config : Filtering.Config,
     match Filtering.New ParseDuration config name with
     | inl p =>
         ∃ pi pt,
           ParseDuration (Filtering.PollInterval config) = inl pi ∧
           ParseDuration (Filtering.PollTimeout config) = inl pt ∧
           (Filtering.Init p = None ↔
              0 < pi ∧ 0 < pt ∧ Filtering.Endpoints config ≠ ∅ ∧
              Filtering.ConfigEntryPoints config ≠ [])
     | inr err =>
         ParseDuration (Filtering.PollInterval config) = inr err ∨
         ((∃ pi, ParseDuration (Filtering.PollInterval config) = inl pi) ∧
          ParseDuration (Filtering.PollTimeout config) = inr err)
     end).
  { intros config. unfold Filtering.New.
    destruct (ParseDuration (Filtering.PollInterval config)) as [pi|err];
      [|by left].
    destruct (ParseDuration (Filtering.PollTimeout config)) as [pt|err];
      [|right; split; [by eexists | done]].
    exists pi, pt. split_and!; [done..|].
    unfold Filtering.Init.
    cbn [Filtering.pollInterval Filtering.pollTimeout Filtering.endpoints
         Filtering.entrypoints].
    repeat case_bool_decide; rewrite ?Hsize, ?Heps in *;
      (split; [intros ?; try discriminate | intros ?; try done; exfalso]);
      intuition (try lia; try congruence). }
  assert (HR : ∀ config : Rewriting.Config,
     match Rewriting.New ParseDuration config name with
     | inl p =>
         ∃ pi pt,
           ParseDuration (Rewriting.PollInterval config) = inl pi ∧
           ParseDuration (Rewriting.PollTimeout config) = inl pt ∧
           (Rewriting.Init p = None ↔
              0 < pi ∧ 0 < pt ∧ Rewriting.Endpoints config ≠ ∅)
     | inr err =>
         ParseDuration (Rewriting.PollInterval config) = inr err ∨
         ((∃ pi, ParseDuration (Rewriting.PollInterval config) = inl pi) ∧
          ParseDuration (Rewriting.PollTimeout config) = inr err)
     end).
  { intros config. unfold Rewriting.New.
    destruct (ParseDuration (Rewriting.PollInterval config)) as [pi|err];
      [|by left].
    destruct (ParseDuration (Rewriting.PollTimeout config)) as [pt|err];
      [|right; split; [by eexists | done]].
    exists pi, pt. split_and!; [done..|].
    unfold Rewriting.Init.
    cbn [Rewriting.pollInterval Rewriting.pollTimeout Rewriting.endpoints].
    repeat case_bool_decide; rewrite ?Hsize in *;
      (split; [intros ?; try discriminate | intros ?; try done; exfalso]);
      intuition (try lia; try congruence). }
  split_and!; [exact HF | exact HR | |].
  - specialize (HF Filtering.CreateConfig).
    destruct (Filtering.New ParseDuration Filtering.CreateConfig name); [|done].
    destruct HF as (pi & pt & _ & _ & Hiff). intros Hnone.
    apply Hiff in Hnone as (_ & _ & Hne & _). by apply Hne.
  - specialize (HR Rewriting.CreateConfig).
    destruct (Rewriting.New ParseDuration Rewriting.CreateConfig name); [|done].
    destruct HR as (pi & pt & _ & _ & Hiff). intros Hnone.
    apply Hiff in Hnone as (_ & _ & Hne). by apply Hne.
Qed.

Example New_default_is_rejected :
  match Filtering.New sample_ParseDuration Filtering.CreateConfig "plugin" with
  | inl p => Filtering.Init p = Some "must provide at least 1 endpoint"
  | inr _ => False
  end.
Proof. vm_compute. reflexivity. Qed.

Section Headers.
Context {Svc Mw : Type}.
Variable json_Unmarshal : string → option (Configuration Svc Mw).
Variable transform : Configuration Svc Mw → outcome (Configuration Svc Mw).

(** X25. The configured headers are never used.  The loop over the
    endpoints gives the same result, [configs] or panic, for two lists of
    endpoints that have the same node names and addresses in the same
    order, whatever their headers. *)
Theorem poll_ignores_headers get (visit visit' : list (string * endpoint))
    (configs : gmap string (Configuration Svc Mw)) :
  Forall2 (λ a b, a.1 = b.1 ∧ endpoint_address a.2 = endpoint_address b.2)
          visit visit' →
  poll json_Unmarshal transform get visit configs =
  poll json_Unmarshal transform get visit' configs.
Proof.
  intros Hsame. revert configs.
  induction Hsame as [|[node e] [node' e'] visit visit' [Hn Ha] _ IH];
    intros configs; [done|].
  cbn [fst snd] in Hn, Ha. subst node'. cbn [poll].
  assert (Hfetch : fetch json_Unmarshal get e = fetch json_Unmarshal get e').
  { unfold fetch, config_url. by rewrite Ha. }
  rewrite Hfetch. destruct (fetch json_Unmarshal get e') as [c|]; [|apply IH].
  destruct (transform c); cbn [obind]; [apply IH | done].
Qed.
End Headers.

Lemma poll_ignores_headers_witness :
  Forall2 (λ a b, a.1 = b.1 ∧ endpoint_address a.2 = endpoint_address b.2)
          with_headers without_headers ∧
  poll sample_Unmarshal (Filtering.transform web_only) (http_Get one_down)
       with_headers ∅ =
  poll sample_Unmarshal (Filtering.transform web_only) (http_Get one_down)
       without_headers ∅.
Proof.
  assert (Hsame : Forall2 (λ a b, a.1 = b.1 ∧
                                  endpoint_address a.2 = endpoint_address b.2)
                          with_headers without_headers).
  { repeat constructor. }
  split; [exact Hsame|].
  exact (poll_ignores_headers sample_Unmarshal (Filtering.transform web_only)
           (http_Get one_down) with_headers without_headers ∅ Hsame).
Defined.
